(** * symnet.image.data_utils: a shallow embedding and its properties

    The module [symnet/image/data_utils.py] loads an image-classification
    dataset: a CSV label index is split into a train and a test partition,
    the images named there are decoded (optionally through a process pool),
    resampled to one shape and normalised.

    The Python code is embedded as Rocq functions.  Exceptions become the
    left summand of [res]; [print] becomes a line appended to the output
    carried by [io], which also threads the state of the global random
    generator; the file system, the image codec, the CSV tokeniser, the
    type inference of the table reader, the random splitter, the class
    rebalancer and the spline interpolation are fields of a record
    [World], one value of which stands for one run of the program.
    Library functions the code calls ([os.path.join],
    [multiprocessing.Pool.map], [numpy.asanyarray], [numpy.median],
    [scipy.ndimage.zoom], the header and row-index handling of
    [pandas.read_csv]) are written out as far as the code depends on
    them, for a POSIX host. *)

From Stdlib Require Import String Ascii DecimalString.
From Stdlib Require Import List Bool Arith ZArith QArith Qabs Qround Lia.
From Stdlib Require Import Permutation Sorting.Sorted Sorting.Mergesort Orders.
#[warnings="-stdlib-vector"]
From Stdlib Require Vector.
Import ListNotations.

Local Open Scope string_scope.
Local Open Scope list_scope.
Local Open Scope nat_scope.

Set Warnings "-register-all".

(* ================================================================== *)
(** ** Python values, exceptions and effects *)

Module Py.

(** The exceptions the module can raise, each with its message.
    [External] is an exception raised inside a collaborator (codec,
    tokeniser, splitter, rebalancer). *)
Inductive exn : Type :=
| ValueError (msg : string)
| TypeError (msg : string)
| IndexError (msg : string)
| KeyError (msg : string)
| RuntimeError (msg : string)
| OverflowError (msg : string)
| EmptyDataError (msg : string)
| ParserError (msg : string)
| External (kind msg : string).

(** A computation that returns a value or raises. *)
Definition res (A : Type) : Type := (exn + A)%type.

Definition ok {A} (a : A) : res A := inr a.
Definition raise {A} (e : exn) : res A := inl e.

Definition bind {A B} (m : res A) (k : A -> res B) : res B :=
  match m with
  | inl e => inl e
  | inr a => k a
  end.

(** A list comprehension whose body may raise: the first failure, in list
    order, aborts the comprehension. *)
Fixpoint mapM {A B} (f : A -> res B) (xs : list A) : res (list B) :=
  match xs with
  | [] => ok []
  | x :: rest =>
      bind (f x) (fun y => bind (mapM f rest) (fun ys => ok (y :: ys)))
  end.

(** The state of the global random generator (NumPy's), which every
    random draw reads and advances. *)
Definition rng : Type := nat.

(** A computation that also prints and draws random numbers: from the
    state of the generator it gives the lines written to standard output,
    oldest first, the outcome, and the state the generator is left in. *)
Definition io (A : Type) : Type := rng -> list string * res A * rng.

Definition ret {A} (a : A) : io A := fun g => ([], ok a, g).
Definition print (line : string) : io unit := fun g => ([line], ok tt, g).
Definition lift {A} (m : res A) : io A := fun g => ([], m, g).

(** A call that draws from the generator. *)
Definition draw {A} (f : rng -> res A * rng) : io A :=
  fun g => let '(r, g') := f g in ([], r, g').

Definition iobind {A B} (m : io A) (k : A -> io B) : io B :=
  fun g =>
    match m g with
    | (out, inl e, g1) => (out, inl e, g1)
    | (out, inr a, g1) =>
        let '(out', r, g2) := k a g1 in ((out ++ out')%list, r, g2)
    end.

(** A cell of a table as pandas holds it: a string, a value that is not
    a string (a number, a boolean, ...) parsed from the given text, or NaN
    for a missing value. *)
Inductive cell : Type :=
| Str (s : string)
| Parsed (text : string)
| Missing.

(** The values [read_csv_file] puts in the tuple it returns: a list
    literal, or a column of a data frame. *)
Inductive pyval : Type :=
| VList (items : list pyval)
| VSeries (cells : list cell).

(** A tuple is the list of its components. *)
Definition tuple : Type := list pyval.

End Py.

Import Py.

Declare Scope py_scope.
Delimit Scope py_scope with py.
Notation "x <- m ;; k" := (bind m (fun x => k))
  (at level 61, m at next level, right associativity) : py_scope.
Notation "' p <- m ;; k" := (bind m (fun p => k))
  (at level 61, p pattern, m at next level, right associativity) : py_scope.
Notation "x <~ m ;; k" := (iobind m (fun x => k))
  (at level 61, m at next level, right associativity) : py_scope.
Notation "' p <~ m ;; k" := (iobind m (fun p => k))
  (at level 61, p pattern, m at next level, right associativity) : py_scope.
Local Open Scope py_scope.

(* ================================================================== *)
(** ** Paths *)

Module OsPath.

Definition sep : string := "/".

Fixpoint endswith_sep (s : string) : bool :=
  match s with
  | EmptyString => false
  | String c EmptyString => Ascii.eqb c "/"%char
  | String _ rest => endswith_sep rest
  end.

(** [os.path.join a b] on a POSIX host: an absolute [b] replaces [a];
    otherwise [b] is appended, after a separator unless [a] is empty or
    already ends with one. *)
Definition join (a b : string) : string :=
  if String.prefix sep b then b
  else if (String.eqb a "" || endswith_sep a)%bool then (a ++ b)%string
  else (a ++ sep ++ b)%string.

End OsPath.

(* ================================================================== *)
(** ** Arrays *)

Module Np.

Definition pixel : Type := Z.

(** A numeric array: its shape and its elements in row-major order. *)
Record tensor : Type := mkTensor { shape : list nat; data : list pixel }.

Definition ndim (t : tensor) : nat := length (shape t).

(** [img[..., np.newaxis]]: one more axis, of size 1, at the end. *)
Definition newaxis_last (t : tensor) : tensor :=
  mkTensor (shape t ++ [1])%list (data t).

(** What the parameter [images] can hold.
    - [BNone]: Python's [None];
    - [BScalar]: an array with no axis (shape [()]);
    - [BDense s ds]: a numeric array of shape [(length ds, *s)]: the
      elements along its first axis have shape [s], and [ds] lists their
      data;
    - [BObject ts]: a one-axis array of objects, each an array of its own
      shape, which is what [np.asanyarray] makes of images of different
      shapes. *)
Inductive batch : Type :=
| BNone
| BScalar (x : pixel)
| BDense (item_shape : list nat) (items_data : list (list pixel))
| BObject (elems : list tensor).

(** [for x in images]: the elements along the first axis. *)
Definition items (b : batch) : list tensor :=
  match b with
  | BNone | BScalar _ => []
  | BDense s ds => map (mkTensor s) ds
  | BObject ts => ts
  end.

(** [images.shape], for an array. *)
Definition batch_shape (b : batch) : list nat :=
  match b with
  | BNone | BScalar _ => []
  | BDense s ds => length ds :: s
  | BObject ts => [length ts]
  end.

(** [images is None] *)
Definition is_none (b : batch) : bool :=
  match b with
  | BNone => true
  | _ => false
  end.

Definition shape_eqb (s1 s2 : list nat) : bool :=
  if list_eq_dec Nat.eq_dec s1 s2 then true else false.

(** The size of the first axis, for an array that has one. *)
Definition first_axis (t : tensor) : option nat := hd_error (shape t).

Definition first_axis_eqb (a b : option nat) : bool :=
  match a, b with
  | Some m, Some n => m =? n
  | _, _ => false
  end.

(** [np.array xs] / [np.asanyarray xs] of a list of arrays: arrays of one
    shape are stacked along a new first axis; the empty list gives the
    empty one-axis array.  Arrays of different shapes: NumPy from 1.24 on
    raises; the older ones ([ragged_objects]) keep the arrays as objects
    when their first axes differ, and when their first axes all agree try
    to stack them, fail, and raise.  (Both messages go on to name the
    shapes found.) *)
Definition np_array (ragged_objects : bool) (xs : list tensor) : res batch :=
  match xs with
  | [] => ok (BDense [] [])
  | x :: rest =>
      if forallb (fun y => shape_eqb (shape x) (shape y)) rest
      then ok (BDense (shape x) (map data xs))
      else if negb ragged_objects
      then raise (ValueError "setting an array element with a sequence. The requested array has an inhomogeneous shape")
      else if forallb (fun y => first_axis_eqb (first_axis x) (first_axis y)) xs
      then raise (ValueError "could not broadcast input array")
      else ok (BObject xs)
  end.

(** *** Floating-point values

    The floats the code computes are quotients of array sizes: a finite
    float is modelled by the rational it stands for (sizes below 2^50 and
    their halves are exact in binary64, and so are the roundings taken of
    them below), next to the two infinities and NaN that a division by a
    size of zero produces. *)
Inductive npfloat : Type :=
| Fin (q : Q)
| PosInf
| NegInf
| NaN.

(** An array of one axis, or a scalar (no axis). *)
Inductive vec (A : Type) : Type :=
| V0 (x : A)
| V1 (xs : list A).
Arguments V0 {A} x.
Arguments V1 {A} xs.

Definition vec_map {A B} (f : A -> B) (v : vec A) : vec B :=
  match v with
  | V0 x => V0 (f x)
  | V1 xs => V1 (map f xs)
  end.

Definition int64_min : Z := (- 2 ^ 63)%Z.

(** [x.astype(int)]: the fraction is dropped (rounding toward zero); a
    value that is not finite becomes the smallest 64-bit integer. *)
Definition astype_int (x : npfloat) : Z :=
  match x with
  | Fin q => Z.quot (Qnum q) (Z.pos (Qden q))
  | _ => int64_min
  end.

(** [np.true_divide s d] of two integers, the second a size. *)
Definition true_divide (s : Z) (d : nat) : npfloat :=
  if d =? 0 then
    if (0 <? s)%Z then PosInf else if (s <? 0)%Z then NegInf else NaN
  else Fin (Qmake s (Pos.of_nat d)).

(** [ii * jj] for a size [ii] and a float [jj]. *)
Definition mul_size (ii : nat) (jj : npfloat) : npfloat :=
  match jj with
  | Fin q => Fin (inject_Z (Z.of_nat ii) * q)
  | PosInf => if ii =? 0 then NaN else PosInf
  | NegInf => if ii =? 0 then NaN else NegInf
  | NaN => NaN
  end.

(** Python's [round] of a finite float: to the nearest integer, a tie to
    the even one. *)
Definition round_half_even (q : Q) : Z :=
  let n := Qnum q in
  let d := Z.pos (Qden q) in
  let f := (n / d)%Z in
  match (2 * (n mod d) ?= d)%Z with
  | Lt => f
  | Gt => (f + 1)%Z
  | Eq => if Z.even f then f else (f + 1)%Z
  end.

(** [int(round(x))] *)
Definition int_round (x : npfloat) : res Z :=
  match x with
  | Fin q => ok (round_half_even q)
  | NaN => raise (ValueError "cannot convert float NaN to integer")
  | PosInf | NegInf =>
      raise (OverflowError "cannot convert float infinity to integer")
  end.

(** *** Median *)

Module ZOrder <: TotalLeBool.
Definition t := Z.
Definition leb := Z.leb.
Theorem leb_total : forall a1 a2, leb a1 a2 = true \/ leb a2 a1 = true.
Proof. intros a1 a2; unfold leb; destruct (Z.leb_spec a1 a2); auto.
       right; apply Z.leb_le; lia. Qed.
End ZOrder.

Module ZSort := Sort ZOrder.

(** [np.median xs] of integers: the middle element of the sorted values,
    or the mean of the two middle ones; NaN for no value at all. *)
Definition np_median (xs : list Z) : npfloat :=
  let s := ZSort.sort xs in
  let n := length s in
  if n =? 0 then NaN
  else if Nat.even n then
    Fin (Qmake (nth (n / 2 - 1) s 0%Z + nth (n / 2) s 0%Z) 2)
  else Fin (inject_Z (nth (n / 2) s 0%Z)).

(** [np.median(rows, axis=0)] of a list of integer tuples: the median of
    each column.  Tuples of different lengths do not form a numeric array
    (they are kept as objects), and their median cannot be taken; no tuple
    at all gives the scalar NaN. *)
Definition np_median_axis0 (rows : list (list Z)) : res (vec npfloat) :=
  match rows with
  | [] => ok (V0 NaN)
  | r :: rest =>
      if forallb (fun r' => length r' =? length r) rest then
        ok (V1 (map (fun j => np_median (map (fun row => nth j row 0%Z) rows))
                    (seq 0 (length r))))
      else raise (TypeError "unsupported operand type(s) for /: 'tuple' and 'int'")
  end.

Fixpoint map2 {A B C} (f : A -> B -> C) (xs : list A) (ys : list B) : list C :=
  match xs, ys with
  | x :: xs', y :: ys' => f x y :: map2 f xs' ys'
  | _, _ => []
  end.

(** [np.divide(size, shape)]: element by element, an operand with a
    single element being repeated. *)
Definition np_divide (size : vec Z) (sh : list nat) : res (list npfloat) :=
  match size with
  | V0 s => ok (map (true_divide s) sh)
  | V1 ss =>
      if length ss =? length sh then ok (map2 true_divide ss sh)
      else if length ss =? 1 then ok (map (true_divide (hd 0%Z ss)) sh)
      else if length sh =? 1 then
        ok (map (fun s => true_divide s (hd 0 sh)) ss)
      else raise (ValueError "operands could not be broadcast together")
  end.

End Np.

Import Np.

(* ================================================================== *)
(** ** The environment of one run *)

(** No name occurs twice. *)
Fixpoint distinct (names : list string) : bool :=
  match names with
  | [] => true
  | name :: rest => negb (existsb (String.eqb name) rest) && distinct rest
  end.

(** A table: the column names and, row by row, the cells of the columns
    (the row index is not part of it).  No two columns of a table of this
    program have the same name: pandas renames the repeated names of a
    header, and a partition has the columns of the table it is drawn
    from. *)
Record DataFrame : Type := mkDF {
  columns : list string;
  rows : list (list cell);
  columns_distinct : distinct columns = true
}.

Record World : Type := mkWorld {
  (** [os.path.exists] and [os.path.isdir] *)
  path_exists : string -> bool;
  path_isdir : string -> bool;
  (** [imageio.imread]: the decoded image, or the codec's error *)
  imread : string -> res tensor;
  (** the records of a CSV file, each the list of its fields, in file
      order, blank lines dropped; or the tokeniser's error *)
  csv_records : string -> res (list (list string));
  (** the names pandas gives the columns when the header has an empty or
      a repeated name: it renames those, to names that differ from each
      other *)
  renamed : list string -> {names : list string | distinct names = true};
  (** the type inference of pandas: the value of a field, given the texts
      of all fields of its column and its own text *)
  convert : list string -> string -> cell;
  (** [sklearn.model_selection.train_test_split df train_size=0.7]: a
      random split, drawn from the state of the generator, which it
      advances *)
  train_test_split : rng -> DataFrame -> res (DataFrame * DataFrame) * rng;
  (** [symnet.data_utils.rebalance], a function of the package that lies
      outside this module; it resamples, so it draws as well *)
  rebalance : rng -> DataFrame -> string -> res DataFrame * rng;
  (** the order in which the tasks of one [Pool.map] call complete, as
      task indices (see [pool_map]) *)
  pool_schedule : list string -> list nat;
  (** the spline interpolation of [scipy.ndimage.zoom]: the data of the
      resampled array, given the input and the output shape *)
  spline : tensor -> list nat -> list pixel;
  (** the NumPy of the run is older than 1.24: [np.asanyarray] of arrays
      of different shapes may give an array of objects (see [np_array]) *)
  ragged_objects : bool
}.

(* ================================================================== *)
(** ** Tables *)

Definition nat_str (n : nat) : string := NilEmpty.string_of_uint (Nat.to_uint n).

Module Pandas.

(** A record with fewer fields than the table is wide gets empty fields at
    its end. *)
Definition pad (width : nat) (r : list string) : list string :=
  (r ++ repeat "" (width - length r))%list.

(** The width of the table: the number of fields of the header or of the
    first record below it, whichever is larger. *)
Definition table_width (ncols : nat) (body : list (list string)) : nat :=
  match body with
  | [] => ncols
  | first :: _ => Nat.max ncols (length first)
  end.

(** The fields of the columns, row by row: when the table is wider than
    the header, the leading fields in excess are the row index and belong
    to no column. *)
Definition column_fields (ncols : nat) (body : list (list string))
    : list (list string) :=
  let width := table_width ncols body in
  map (fun r => skipn (width - ncols) (pad width r)) body.

(** The rows of the table read from the records below the header, for a
    header of [ncols] names: a record with more fields than the table is
    wide is an error; the value of a cell is inferred from its column. *)
Definition parse_rows (w : World) (ncols : nat) (body : list (list string))
    : res (list (list cell)) :=
  if existsb (fun r => table_width ncols body <? length r) body then
    raise (ParserError "Error tokenizing data")
  else
    let fields := column_fields ncols body in
    ok (map (fun r =>
               map (fun j => convert w (map (fun r' => nth j r' "") fields)
                                     (nth j r ""))
                   (seq 0 ncols))
            fields).

(** A header whose names are distinct and not empty. *)
Definition plain_names (header : list string) : bool :=
  distinct header && forallb (fun name => negb (String.eqb name "")) header.

(** The column names: the header itself, unless pandas has to rename. *)
Definition column_names (w : World) (header : list string)
    : {names : list string | distinct names = true} :=
  match distinct header as b return distinct header = b -> _ with
  | true => fun H =>
      if forallb (fun name => negb (String.eqb name "")) header
      then exist _ header H
      else renamed w header
  | false => fun _ => renamed w header
  end eq_refl.

(** [pd.read_csv path] with its default arguments ([header='infer'], no
    [index_col]): the first record of the file gives the column names and
    is no row of the table; a file without records raises. *)
Definition read_csv (w : World) (path : string) : res DataFrame :=
  recs <- csv_records w path ;;
  match recs with
  | [] => raise (EmptyDataError "No columns to parse from file")
  | header :: body =>
      rows <- parse_rows w (length header) body ;;
      let names := column_names w header in
      ok (mkDF (proj1_sig names) rows (proj2_sig names))
  end.

(** [df.columns[i]] *)
Definition columns_at (df : DataFrame) (i : nat) : res string :=
  match nth_error (columns df) i with
  | Some name => ok name
  | None =>
      raise (IndexError ("index " ++ nat_str i
                         ++ " is out of bounds for axis 0 with size "
                         ++ nat_str (length (columns df)))%string)
  end.

Fixpoint index_of (name : string) (names : list string) : option nat :=
  match names with
  | [] => None
  | n :: rest =>
      if String.eqb name n then Some 0
      else option_map S (index_of name rest)
  end.

(** [df[name]]: the column of that name, one cell per row. *)
Definition getitem (df : DataFrame) (name : string) : res (list cell) :=
  match index_of name (columns df) with
  | Some i => ok (map (fun row => nth i row Missing) (rows df))
  | None => raise (KeyError name)
  end.

End Pandas.

(* ================================================================== *)
(** ** Image decoding and loading *)

Module DataUtils.

(** [read_image path] *)
Definition read_image (w : World) (path : string) : res tensor :=
  imread w path.

(** [_image_to_array img_path] *)
Definition _image_to_array (w : World) (img_path : string) : res tensor :=
  if path_exists w img_path then
    img <- read_image w img_path ;;
    if ndim img <? 3 then ok (newaxis_last img) else ok img
  else raise (ValueError (img_path ++ " image does not exist")%string).

(** One step of a running [Pool.map]: task [i] completes.  A result is
    stored at index [i] of the buffer; the first failure to complete is
    the one kept. *)
Definition pool_step {A B} (f : A -> res B) (xs : list A)
    (st : list (option B) * option exn) (i : nat)
    : list (option B) * option exn :=
  let '(buf, err) := st in
  match nth_error xs i with
  | None => st
  | Some x =>
      match f x with
      | inr y => ((firstn i buf ++ Some y :: skipn (S i) buf)%list, err)
      | inl e => (buf, match err with None => Some e | Some _ => err end)
      end
  end.

Definition collect {B} (buf : list (option B)) : list B :=
  flat_map (fun o => match o with Some y => [y] | None => [] end) buf.

(** [Pool.map f xs]: one task per element, completing in the order
    [schedule]; tasks the schedule does not name complete after it, in
    index order.  The results are read from the buffer by index; if a
    task failed, the first failure to complete is raised instead. *)
Definition pool_map {A B} (schedule : list nat) (f : A -> res B)
    (xs : list A) : res (list B) :=
  let n := length xs in
  let '(buf, err) :=
    fold_left (pool_step f xs) (schedule ++ seq 0 n)%list
              (repeat None n, None) in
  match err with
  | Some e => raise e
  | None => ok (collect buf)
  end.

(** [read_images img_file_names images_dir_path parallel] *)
Definition read_images (w : World) (img_file_names : list string)
    (images_dir_path : string) (parallel : bool) : res batch :=
  let img_paths := map (OsPath.join images_dir_path) img_file_names in
  x_train <-
    (if path_isdir w images_dir_path then
       if parallel then
         pool_map (pool_schedule w img_paths) (_image_to_array w) img_paths
       else mapM (_image_to_array w) img_paths
     else raise (ValueError "Directory containing images does not exist")) ;;
  np_array (ragged_objects w) x_train.

(** [compute_median_dimensions images] *)
Definition compute_median_dimensions (images : batch) : res (vec Z) :=
  if is_none images || (length (batch_shape images) =? 0) then ok (V1 [])
  else
    median_shape <-
      np_median_axis0 (map (fun x => map Z.of_nat (shape x)) (items images)) ;;
    ok (vec_map astype_int median_shape).

(** [scipy.ndimage.zoom input zoom]: the output has, along each axis, the
    rounded product of the input size and the zoom factor; its data come
    from the interpolation. *)
Definition zoom (w : World) (input : tensor) (factors : list npfloat)
    : res tensor :=
  if ndim input <? 1 then
    raise (RuntimeError "input and output rank must be > 0")
  else if negb (length factors =? ndim input) then
    raise (RuntimeError "sequence argument must have length equal to input rank")
  else
    out <- mapM (fun '(ii, jj) => int_round (mul_size ii jj))
                (combine (shape input) factors) ;;
    if existsb (fun d => (d <? 0)%Z) out then
      raise (ValueError "negative dimensions are not allowed")
    else
      let output_shape := map Z.to_nat out in
      ok (mkTensor output_shape (spline w input output_shape)).

(** [resize_images images size] *)
Definition resize_images (w : World) (images : batch) (size : option (vec Z))
    : res batch :=
  if is_none images || (length (batch_shape images) =? 0) then ok images
  else
    size <- match size with
            | None => compute_median_dimensions images
            | Some s => ok s
            end ;;
    resized <- mapM (fun x => factors <- np_divide size (shape x) ;;
                              zoom w x factors)
                    (items images) ;;
    np_array (ragged_objects w) resized.

(** [print('WARNING: ...'); return [[]], []]: the two-component tuple of
    the soft-failure paths. *)
Definition empty_result : tuple := [VList [VList []]; VList []].

Definition warn_missing : string := "WARNING: Path does not exist, or is None.".
Definition warn_no_columns : string := "WARNING: File has no columns".

(** [path is None or not os.path.exists(path)] *)
Definition path_missing (w : World) (path : option string) : bool :=
  match path with
  | None => true
  | Some p => negb (path_exists w p)
  end.

(** [read_csv_file path balance]; the first two branches are the guard
    [path is None or not os.path.exists(path)]. *)
Definition read_csv_file (w : World) (path : option string) (balance : bool)
    : io tuple :=
  match path with
  | None => _ <~ print warn_missing ;; ret empty_result
  | Some p =>
      if negb (path_exists w p) then
        _ <~ print warn_missing ;; ret empty_result
      else
        df <~ lift (Pandas.read_csv w p) ;;
        if length (columns df) =? 0 then
          _ <~ print warn_no_columns ;; ret empty_result
        else
          ' (train_df, test_df) <~ draw (fun g => train_test_split w g df) ;;
          train_df <~ (if balance
                       then label <~ lift (Pandas.columns_at df 1) ;;
                            draw (fun g => rebalance w g train_df label)
                       else ret train_df) ;;
          lift (c0 <- Pandas.columns_at df 0 ;;
                x_train <- Pandas.getitem train_df c0 ;;
                c1 <- Pandas.columns_at df 1 ;;
                y_train <- Pandas.getitem train_df c1 ;;
                c0' <- Pandas.columns_at df 0 ;;
                x_test <- Pandas.getitem test_df c0' ;;
                c1' <- Pandas.columns_at df 1 ;;
                y_test <- Pandas.getitem test_df c1' ;;
                ok [VSeries x_train; VSeries y_train;
                    VSeries x_test; VSeries y_test])
  end.

(** [a, b, c, d = t] *)
Definition unpack4 (t : tuple) : res (pyval * pyval * pyval * pyval) :=
  match t with
  | [a; b; c; d] => ok (a, b, c, d)
  | _ =>
      if length t <? 4 then
        raise (ValueError ("not enough values to unpack (expected 4, got "
                           ++ nat_str (length t) ++ ")")%string)
      else raise (ValueError "too many values to unpack (expected 4)")
  end.

(** The file names [read_images] finds when it iterates over the value it
    is given: each element goes through [os.path.join] (before the
    directory is looked at), which accepts strings only.  (For a parsed
    value the message goes on to name its type.) *)
Definition file_names (v : pyval) : res (list string) :=
  match v with
  | VSeries cells =>
      mapM (fun c : cell =>
              match c with
              | Str name => ok name
              | Parsed _ => raise (TypeError
                  "join() argument must be str, bytes, or os.PathLike object")
              | Missing => raise (TypeError
                  "join() argument must be str, bytes, or os.PathLike object, not 'float'")
              end) cells
  | VList elems =>
      mapM (fun _ : pyval => raise (TypeError
              "join() argument must be str, bytes, or os.PathLike object, not 'list'"))
           elems
  end.

(** [load_image_dataset csv_file_path images_path parallel]; [np.array]
    of a batch or of a column keeps its values. *)
Definition load_image_dataset (w : World) (csv_file_path : option string)
    (images_path : string) (parallel : bool)
    : io (batch * pyval * batch * pyval) :=
  t <~ read_csv_file w csv_file_path true ;;
  lift (' (x_train, y_train, x_test, y_test) <- unpack4 t ;;
        names_train <- file_names x_train ;;
        x_train <- read_images w names_train images_path parallel ;;
        names_test <- file_names x_test ;;
        x_test <- read_images w names_test images_path parallel ;;
        ok (x_train, y_train, x_test, y_test)).

End DataUtils.

Import DataUtils.

(* ================================================================== *)
(** ** Normalisation *)

(** The Normalizer works on two numeric arrays whose elements along the
    first axis have one common shape.  Such an element is given here by its
    [k] entries in row-major order, so a batch is a list of vectors of
    length [k]; the arithmetic is element by element and does not look at
    the shape.  The float type and its operations are parameters: nothing
    below depends on laws of floating-point arithmetic. *)
Section Normalizer.

Variables A F : Type.
(** the conversion of an entry to a float, done by the arithmetic *)
Variable to_float : A -> F.
Variables fadd fsub fdiv : F -> F -> F.
Variable float_of_nat : nat -> F.
Variables fzero f255 : F.

Definition image (k : nat) : Type := Vector.t A k.
Definition fimage (k : nat) : Type := Vector.t F k.

(** [np.add.reduce(xs, axis=0)]: the entries at one position are added
    up along the batch, from the first image on. *)
Definition add_reduce0 {k} (xs : list (fimage k)) : fimage k :=
  match xs with
  | [] => Vector.const fzero k
  | x :: rest => fold_left (Vector.map2 fadd) rest x
  end.

(** [np.mean(xs, axis=0)] *)
Definition np_mean0 {k} (xs : list (image k)) : fimage k :=
  Vector.map (fun s => fdiv s (float_of_nat (length xs)))
             (add_reduce0 (map (Vector.map to_float) xs)).

(** [(xs - mean) / 255.], the mean repeated along the batch. *)
Definition center_scale {k} (xs : list (image k)) (mean : fimage k)
    : list (fimage k) :=
  map (fun x => Vector.map (fun d => fdiv d f255)
                  (Vector.map2 fsub (Vector.map to_float x) mean)) xs.

(** [normalize_images x_train x_test] *)
Definition normalize_images {k} (x_train x_test : list (image k))
    : list (fimage k) * list (fimage k) :=
  let x_train_mean := np_mean0 x_train in
  let x_train' := center_scale x_train x_train_mean in
  let x_test' := center_scale x_test x_train_mean in
  (x_train', x_test').

(** The sum of the entries at position [j] over a batch, first image
    first. *)
Definition column_sum {k} (xs : list (image k)) (j : Fin.t k) : F :=
  match map (fun x => to_float (Vector.nth x j)) xs with
  | [] => fzero
  | v :: rest => fold_left fadd rest v
  end.

(** The average of the entries at position [j] over a batch. *)
Definition mean_at {k} (xs : list (image k)) (j : Fin.t k) : F :=
  fdiv (column_sum xs j) (float_of_nat (length xs)).

End Normalizer.

(** The Normalizer over exact rationals. *)
Definition normalize_images_Q {k} (x_train x_test : list (Vector.t Q k))
    : list (Vector.t Q k) * list (Vector.t Q k) :=
  let '(a, b) :=
    normalize_images Q Q (fun x => x) Qplus Qminus Qdiv
      (fun n => inject_Z (Z.of_nat n)) 0%Q 255%Q x_train x_test in
  (map (Vector.map Qred) a, map (Vector.map Qred) b).

(* ================================================================== *)
(** ** A sample run *)

Module Sample.

Definition gray : tensor := mkTensor [2; 2] [0; 64; 128; 255]%Z.
Definition rgb : tensor := mkTensor [1; 2; 3] [1; 2; 3; 4; 5; 6]%Z.

Definition labels : list (list string) :=
  [["File Name"; "Label"]; ["a.png"; "cat"]; ["b.png"; "dog"];
   ["c.png"; "cat"]].

(** The new names of a header: an empty name becomes [Unnamed: i], with
    [i] its position, and a name met [k] times before gets the suffix
    [.k]. *)
Fixpoint mangle (i : nat) (seen : list string) (header : list string)
    : list string :=
  match header with
  | [] => []
  | name :: rest =>
      let name :=
        if String.eqb name "" then ("Unnamed: " ++ nat_str i)%string
        else name in
      let k := count_occ string_dec seen name in
      (if k =? 0 then name else (name ++ "." ++ nat_str k)%string)
        :: mangle (S i) (name :: seen) rest
  end.

(** A header whose new names collide again is left without columns. *)
Definition mangled (header : list string)
    : {names : list string | distinct names = true} :=
  match distinct (mangle 0 [] header) as b
        return distinct (mangle 0 [] header) = b -> _ with
  | true => fun H => exist _ (mangle 0 [] header) H
  | false => fun _ => exist _ [] eq_refl
  end eq_refl.

(** A directory [imgs] with a grayscale [a.png], a colour [b.png] and a
    file [c.png] that is no image; a label index [labels.csv]; a file
    [blank.csv] whose only record has no field.  Every non-empty field is
    read as a string, an empty one as a missing value.  The split puts
    one row in the test partition, the first or the last according to the
    state of the generator; the pool finishes its tasks last to first;
    the NumPy is one that keeps images of different shapes as objects. *)
Definition world : World := {|
  path_exists p :=
    existsb (String.eqb p)
      ["labels.csv"; "blank.csv"; "imgs"; "imgs/a.png"; "imgs/b.png";
       "imgs/c.png"];
  path_isdir p := String.eqb p "imgs";
  imread p :=
    if String.eqb p "imgs/a.png" then ok gray
    else if String.eqb p "imgs/b.png" then ok rgb
    else raise (External "OSError" "cannot identify image file");
  csv_records p :=
    if String.eqb p "labels.csv" then ok labels
    else if String.eqb p "blank.csv" then ok [[]]
    else raise (External "FileNotFoundError" p);
  renamed := mangled;
  convert _ text := if String.eqb text "" then Missing else Str text;
  train_test_split g df :=
    (match (if Nat.even g then rows df else rev (rows df)) with
     | [] => raise (ValueError "the resulting train set will be empty")
     | r :: rest =>
         ok (mkDF (columns df) rest (columns_distinct df),
             mkDF (columns df) [r] (columns_distinct df))
     end, S g);
  rebalance g df _ := (ok df, g);
  pool_schedule paths := rev (seq 0 (length paths));
  spline _ out_shape := repeat 0%Z (fold_right Nat.mul 1 out_shape);
  ragged_objects := true
|}.

End Sample.

(** A second run, over the same directory: a label index [pairs.csv] whose
    two images both decode, an index [wide.csv] whose records have one
    field more than its header and whose labels are numbers, an index
    [names.csv] with a single column, an image [/data/a.png] outside the
    directory, and a rebalancer that doubles the rows it is given.  A
    column of digits only is read as numbers, and the NumPy is one that
    refuses images of different shapes. *)
Module Sample2.

Definition pairs : list (list string) :=
  [["File Name"; "Label"]; ["a.png"; "cat"]; ["b.png"; "dog"]].

Definition wide : list (list string) :=
  [["File Name"; "Label"]; ["r1"; "a.png"; "1"]; ["r2"; "b.png"; "0"]].

Definition names_only : list (list string) :=
  [["File Name"]; ["a.png"]; ["b.png"]].

Definition is_digit (c : ascii) : bool :=
  (48 <=? nat_of_ascii c) && (nat_of_ascii c <=? 57).

Fixpoint all_digits (s : string) : bool :=
  match s with
  | EmptyString => true
  | String c rest => is_digit c && all_digits rest
  end.

Definition is_number (s : string) : bool :=
  negb (String.eqb s "") && all_digits s.

Definition world : World := {|
  path_exists p :=
    (String.eqb p "pairs.csv" || String.eqb p "wide.csv"
     || String.eqb p "names.csv"
     || String.eqb p "/data/a.png" || path_exists Sample.world p)%bool;
  path_isdir := path_isdir Sample.world;
  imread p :=
    if String.eqb p "/data/a.png" then ok Sample.gray
    else imread Sample.world p;
  csv_records p :=
    if String.eqb p "pairs.csv" then ok pairs
    else if String.eqb p "wide.csv" then ok wide
    else if String.eqb p "names.csv" then ok names_only
    else csv_records Sample.world p;
  renamed := renamed Sample.world;
  convert column text :=
    if forallb is_number column then Parsed text
    else convert Sample.world column text;
  train_test_split := train_test_split Sample.world;
  rebalance g df _ :=
    (ok (mkDF (columns df) (rows df ++ rows df) (columns_distinct df)), S g);
  pool_schedule := pool_schedule Sample.world;
  spline := spline Sample.world;
  ragged_objects := false
|}.

End Sample2.

(* ================================================================== *)
(** ** Vocabulary of the properties *)

(** The contract of the splitter: whatever the state of the generator,
    the two partitions keep the columns and share out the rows of the
    table, none lost and none added. *)
Definition split_partitions (w : World) : Prop :=
  forall g df tr te g',
    train_test_split w g df = (ok (tr, te), g') ->
    columns tr = columns df /\ columns te = columns df /\
    Permutation (rows tr ++ rows te) (rows df).

(** What [read_images] builds its batch from, before [np.asanyarray]. *)
Definition decode_all (w : World) (names : list string) (dir : string)
    (parallel : bool) : res (list tensor) :=
  let img_paths := map (OsPath.join dir) names in
  if parallel then
    pool_map (pool_schedule w img_paths) (_image_to_array w) img_paths
  else mapM (_image_to_array w) img_paths.

Section PoolState.

Context {A B : Type} (f : A -> res B) (xs : list A).

(** What holds of the buffer and the recorded failure while the pool
    runs: a stored result is the result of its task, and a recorded
    failure was raised by one of the tasks. *)
Definition pool_inv (st : list (option B) * option exn) : Prop :=
  length (fst st) = length xs
  /\ (forall i y, nth_error (fst st) i = Some (Some y) ->
        exists x, nth_error xs i = Some x /\ f x = ok y)
  /\ (forall e, snd st = Some e -> exists x, In x xs /\ f x = raise e).

(** Task [i] has completed: its result is stored, or a failure is
    recorded. *)
Definition pool_done (st : list (option B) * option exn) (i : nat) : Prop :=
  (exists y, nth_error (fst st) i = Some (Some y)) \/ snd st <> None.

End PoolState.

(** How many of the values are at most, and at least, a given number. *)
Definition count_le (m : Q) (xs : list Z) : nat :=
  length (filter (fun x => Qle_bool (inject_Z x) m) xs).

Definition count_ge (m : Q) (xs : list Z) : nat :=
  length (filter (fun x => Qle_bool m (inject_Z x)) xs).

(** A median of [xs]: at least half of the values lie on either side. *)
Definition is_median (m : Q) (xs : list Z) : Prop :=
  length xs <= 2 * count_le m xs /\ length xs <= 2 * count_ge m xs.

(** The sizes of all images of a batch along axis [j]. *)
Definition axis_sizes (j : nat) (images : batch) : list Z :=
  map (fun x => Z.of_nat (nth j (shape x) 0)) (items images).

(** The target shape of a batch: the truncated median size along every
    axis. *)
Definition median_shape (r : nat) (images : batch) : list nat :=
  map (fun j => Z.to_nat (astype_int (np_median (axis_sizes j images))))
      (seq 0 r).

(** A non-empty batch of images with [r] axes each, none of them empty. *)
Definition well_shaped (r : nat) (images : batch) : Prop :=
  items images <> []
  /\ Forall (fun x => ndim x = r) (items images)
  /\ Forall (fun x => Forall (fun d => 1 <= d) (shape x)) (items images).

(* ================================================================== *)
(** ** The label index *)

Lemma sample_split_partitions : split_partitions Sample.world.
Proof.
  intros g df tr te g'; cbn.
  assert (Hperm : Permutation (if Nat.even g then rows df else rev (rows df))
                              (rows df)).
  { destruct (Nat.even g); [reflexivity|]. symmetry. apply Permutation_rev. }
  destruct (if Nat.even g then rows df else rev (rows df)) as [|r rest];
    [discriminate|].
  intros H; injection H as <- <- _; cbn.
  repeat split.
  rewrite <- Permutation_cons_append. exact Hperm.
Qed.

Lemma index_of_head (name : string) (names : list string) :
  Pandas.index_of name (name :: names) = Some 0.
Proof. cbn. now rewrite String.eqb_refl. Qed.

Lemma index_of_In (name : string) (names : list string) :
  In name names -> exists i, Pandas.index_of name names = Some i.
Proof.
  induction names as [|n names IH]; cbn; [easy|].
  intros [-> | Hin].
  - rewrite String.eqb_refl. now exists 0.
  - destruct (String.eqb name n); [now exists 0|].
    destruct (IH Hin) as [i ->]. now exists (S i).
Qed.

Lemma getitem_length (df : DataFrame) (name : string) (col : list cell) :
  Pandas.getitem df name = ok col -> length col = length (rows df).
Proof.
  unfold Pandas.getitem.
  destruct (Pandas.index_of name (columns df)); [|discriminate].
  intros H; injection H as <-. apply length_map.
Qed.

(** The table has one row for each record below the header. *)
Lemma parse_rows_length (w : World) (ncols : nat) (body : list (list string))
    (rs : list (list cell)) :
  Pandas.parse_rows w ncols body = ok rs -> length rs = length body.
Proof.
  unfold Pandas.parse_rows, Pandas.column_fields.
  destruct (existsb _ body); [discriminate|].
  intros H; injection H as <-. now rewrite !length_map.
Qed.

(** What a table read by [pd.read_csv] is made of. *)
Lemma read_csv_inv (w : World) (p : string) (df : DataFrame) :
  Pandas.read_csv w p = ok df ->
  exists header body,
    csv_records w p = ok (header :: body)
    /\ columns df = proj1_sig (Pandas.column_names w header)
    /\ Pandas.parse_rows w (length header) body = ok (rows df).
Proof.
  unfold Pandas.read_csv.
  destruct (csv_records w p) as [e|[|header body]]; cbn; try discriminate.
  destruct (Pandas.parse_rows w (length header) body) as [e|rs] eqn:E; cbn;
    [discriminate|].
  intros H; injection H as <-. exists header, body. auto.
Qed.

Lemma soft_failure_paths
    (w : World) (path : option string) (balance : bool) (g : rng) :
  (path_missing w path = true ->
   read_csv_file w path balance g = ([warn_missing], ok empty_result, g))
  /\
  (forall p df,
     path = Some p -> path_exists w p = true ->
     Pandas.read_csv w p = ok df -> columns df = [] ->
     read_csv_file w path balance g = ([warn_no_columns], ok empty_result, g)).
Proof.
  split.
  - destruct path as [p|]; cbn; [|reflexivity].
    intros H. now rewrite H.
  - intros p df -> Hex Hdf Hcols. cbn.
    rewrite Hex, Hdf; cbn. now rewrite Hcols.
Qed.

(** C1.  A path that is [None] or does not exist makes [read_csv_file]
    print its warning and return the two-component tuple [([[]], [])], and
    so does a parsed table without columns; neither case raises (nor
    draws from the random generator). *)
Theorem read_csv_file_soft_failure
    (w : World) (path : option string) (balance : bool) (g : rng) :
  (path_missing w path = true ->
   read_csv_file w path balance g
   = (["WARNING: Path does not exist, or is None."],
      ok [VList [VList []]; VList []], g))
  /\
  (forall p df,
     path = Some p -> path_exists w p = true ->
     Pandas.read_csv w p = ok df -> columns df = [] ->
     read_csv_file w path balance g
     = (["WARNING: File has no columns"], ok [VList [VList []]; VList []], g)).
Proof.
  split.
  - destruct path as [p|]; cbn; [|reflexivity].
    intros Hmiss. now rewrite Hmiss.
  - intros p df -> Hex Hdf Hcols. cbn.
    rewrite Hex, Hdf; cbn. now rewrite Hcols.
Qed.

Lemma read_csv_file_soft_failure_witness :
  read_csv_file Sample.world None true 0
  = (["WARNING: Path does not exist, or is None."],
     ok [VList [VList []]; VList []], 0)
  /\ read_csv_file Sample.world (Some "missing.csv") false 0
     = (["WARNING: Path does not exist, or is None."],
        ok [VList [VList []]; VList []], 0)
  /\ read_csv_file Sample.world (Some "blank.csv") true 0
     = (["WARNING: File has no columns"], ok [VList [VList []]; VList []], 0).
Proof.
  split; [|split].
  - apply (proj1 (read_csv_file_soft_failure Sample.world None true 0)).
    reflexivity.
  - apply (proj1 (read_csv_file_soft_failure Sample.world
                    (Some "missing.csv") false 0)).
    reflexivity.
  - apply (proj2 (read_csv_file_soft_failure Sample.world
                    (Some "blank.csv") true 0)
             "blank.csv" (mkDF [] [] eq_refl)); reflexivity.
Defined.

(** C9.  When the CSV path is [None] or does not exist,
    [load_image_dataset] raises: [read_csv_file] hands it a tuple of two
    components, which cannot be unpacked into four variables. *)
Theorem load_image_dataset_missing_csv_raises
    (w : World) (csv_file_path : option string) (images_path : string)
    (parallel : bool) (g : rng) :
  path_missing w csv_file_path = true ->
  (exists a b warning,
     read_csv_file w csv_file_path true g = ([warning], ok [a; b], g))
  /\ load_image_dataset w csv_file_path images_path parallel g
     = (["WARNING: Path does not exist, or is None."],
        raise (ValueError "not enough values to unpack (expected 4, got 2)"),
        g).
Proof.
  intros Hmiss.
  pose proof (proj1 (soft_failure_paths w csv_file_path true g) Hmiss)
    as Hcsv.
  split.
  - eexists _, _, _. exact Hcsv.
  - unfold load_image_dataset, iobind. rewrite Hcsv. reflexivity.
Qed.

Lemma load_image_dataset_missing_csv_raises_witness :
  load_image_dataset Sample.world (Some "missing.csv") "imgs" false 0
  = (["WARNING: Path does not exist, or is None."],
     raise (ValueError "not enough values to unpack (expected 4, got 2)"), 0).
Proof.
  apply (load_image_dataset_missing_csv_raises
           Sample.world (Some "missing.csv") "imgs" false 0).
  reflexivity.
Defined.

(** C10.  The first record of an existing CSV file becomes the column
    names and is no row of the table: the rows are read from the records
    after the first and depend on the first record through its number of
    fields only.  So with [n] records in the file the two partitions hold
    [n - 1] rows together, and their file names are the first column of
    those rows. *)
Theorem read_csv_file_consumes_header
    (w : World) (p : string) (header : list string)
    (body : list (list string)) (df tr te : DataFrame) (g g' : rng) :
  path_exists w p = true ->
  csv_records w p = ok (header :: body) ->
  Pandas.read_csv w p = ok df ->
  2 <= length (columns df) ->
  split_partitions w ->
  train_test_split w g df = (ok (tr, te), g') ->
  Pandas.parse_rows w (length header) body = ok (rows df)
  /\ exists x_train y_train x_test y_test,
       read_csv_file w (Some p) false g
       = ([], ok [VSeries x_train; VSeries y_train;
                  VSeries x_test; VSeries y_test], g')
       /\ length x_train + length x_test = length (header :: body) - 1
       /\ length y_train + length y_test = length (header :: body) - 1
       /\ Permutation (x_train ++ x_test)
            (map (fun r => nth 0 r Missing) (rows df)).
Proof.
  intros Hex Hrec Hdf Hlen Hsplit Htt.
  destruct (Hsplit _ _ _ _ _ Htt) as (Hctr & Hcte & Hperm).
  destruct (read_csv_inv w p df Hdf) as (h & b & Hrec' & _ & Hrows).
  rewrite Hrec in Hrec'. unfold ok in Hrec'. injection Hrec' as <- <-.
  split; [exact Hrows|].
  pose proof (parse_rows_length _ _ _ _ Hrows) as Hn.
  destruct (columns df) as [|c0 [|c1 cols]] eqn:Hcols; cbn in Hlen; try lia.
  destruct (index_of_In c1 (c0 :: c1 :: cols)) as [i1 Hi1]; [cbn; auto|].
  unfold read_csv_file, iobind, lift, draw, ret, Pandas.columns_at,
    Pandas.getitem.
  rewrite Hex, Hdf; cbn -[Pandas.index_of nth].
  rewrite !Hcols; cbn -[Pandas.index_of nth].
  rewrite Htt; cbn -[Pandas.index_of nth].
  rewrite Hctr, Hcte, index_of_head, Hi1; cbn -[Pandas.index_of nth].
  eexists _, _, _, _. split; [reflexivity|].
  rewrite !length_map, <- length_app, (Permutation_length Hperm).
  cbn [length]. rewrite Hn.
  repeat split; try lia.
  rewrite <- map_app. now apply Permutation_map.
Qed.

Lemma read_csv_file_consumes_header_witness :
  Pandas.parse_rows Sample2.world 2 (tl Sample2.wide)
  = ok [[Str "a.png"; Parsed "1"]; [Str "b.png"; Parsed "0"]]
  /\ exists x_train y_train x_test y_test,
       read_csv_file Sample2.world (Some "wide.csv") false 0
       = ([], ok [VSeries x_train; VSeries y_train;
                  VSeries x_test; VSeries y_test], 1)
       /\ length x_train + length x_test = length Sample2.wide - 1
       /\ length y_train + length y_test = length Sample2.wide - 1
       /\ Permutation (x_train ++ x_test)
            (map (fun r => nth 0 r Missing)
                 [[Str "a.png"; Parsed "1"]; [Str "b.png"; Parsed "0"]]).
Proof.
  apply (read_csv_file_consumes_header Sample2.world "wide.csv"
           ["File Name"; "Label"] (tl Sample2.wide)
           (mkDF ["File Name"; "Label"]
                 [[Str "a.png"; Parsed "1"]; [Str "b.png"; Parsed "0"]] eq_refl)
           (mkDF ["File Name"; "Label"] [[Str "b.png"; Parsed "0"]] eq_refl)
           (mkDF ["File Name"; "Label"] [[Str "a.png"; Parsed "1"]] eq_refl)
           0 1).
  - reflexivity.
  - reflexivity.
  - reflexivity.
  - cbn; lia.
  - exact sample_split_partitions.
  - reflexivity.
Defined.

(* ================================================================== *)
(** ** Comprehensions and the process pool *)

Section MapM.

Context {A B : Type} (f : A -> res B).

Lemma mapM_ok_Forall2 (xs : list A) (ys : list B) :
  mapM f xs = ok ys <-> Forall2 (fun x y => f x = ok y) xs ys.
Proof.
  revert ys; induction xs as [|x xs IH]; intros ys; cbn.
  - split.
    + intros H; injection H as <-; constructor.
    + intros H; inversion H; reflexivity.
  - split.
    + destruct (f x) as [e|y] eqn:Ex; cbn; [discriminate|].
      destruct (mapM f xs) as [e|ys'] eqn:Em; cbn; [discriminate|].
      intros H; injection H as <-.
      constructor; [exact Ex|]. now apply IH.
    + intros H; inversion H as [|x' y l l' Hxy Hrest]; subst.
      rewrite Hxy; cbn.
      apply IH in Hrest. rewrite Hrest. reflexivity.
Qed.

(** A comprehension that raises stopped at its first failing element. *)
Lemma mapM_raise_first (xs : list A) (e : exn) :
  mapM f xs = raise e <->
  exists pre x post,
    xs = (pre ++ x :: post)%list /\ f x = raise e /\
    Forall (fun a => exists b, f a = ok b) pre.
Proof.
  induction xs as [|x xs IH]; cbn.
  - split; [discriminate|].
    intros (pre & a & post & H & _); destruct pre; discriminate.
  - split.
    + destruct (f x) as [e'|y] eqn:Ex; cbn.
      * intros H; injection H as <-.
        exists [], x, xs. repeat split; auto.
      * destruct (mapM f xs) as [e'|ys] eqn:Em; cbn; [|discriminate].
        intros H; injection H as <-.
        destruct (proj1 IH eq_refl) as (pre & a & post & -> & Ha & Hpre).
        exists (x :: pre), a, post. repeat split; auto.
        constructor; eauto.
    + intros (pre & a & post & Hxs & Ha & Hpre).
      destruct pre as [|p pre]; cbn in Hxs; injection Hxs as -> ->.
      * now rewrite Ha.
      * inversion Hpre as [|? ? [b Hb] Hrest]; subst.
        rewrite Hb; cbn.
        rewrite (proj2 IH); [reflexivity|].
        exists pre, a, post. auto.
Qed.

Lemma mapM_total (xs : list A) :
  Forall (fun a => exists b, f a = ok b) xs -> exists ys, mapM f xs = ok ys.
Proof.
  induction 1 as [|x xs [y Hy] _ [ys Hys]]; cbn.
  - now exists [].
  - rewrite Hy, Hys; cbn. now exists (y :: ys).
Qed.

Lemma mapM_In_raise (xs : list A) (x : A) (e : exn) :
  In x xs -> f x = raise e -> exists e', mapM f xs = raise e'.
Proof.
  intros Hin Hx.
  destruct (mapM f xs) as [e'|ys] eqn:Em; [now exists e'|].
  apply mapM_ok_Forall2 in Em.
  exfalso. clear -Hin Hx Em.
  induction Em as [|a b l l' Hab _ IH]; [easy|].
  destruct Hin as [-> | Hin]; [unfold ok, raise in *; congruence | auto].
Qed.

End MapM.

Lemma nth_error_store {T} (buf : list T) (i j : nat) (v : T) :
  i < length buf ->
  nth_error (firstn i buf ++ v :: skipn (S i) buf) j
  = if j =? i then Some v else nth_error buf j.
Proof.
  revert i j; induction buf as [|b buf IH]; intros i j Hi; cbn in Hi; [lia|].
  destruct i as [|i]; destruct j as [|j]; cbn; try reflexivity.
  apply IH. lia.
Qed.

Lemma length_store {T} (buf : list T) (i : nat) (v : T) :
  i < length buf -> length (firstn i buf ++ v :: skipn (S i) buf) = length buf.
Proof.
  intros Hi. rewrite length_app, length_firstn.
  change (length (v :: skipn (S i) buf)) with (S (length (skipn (S i) buf))).
  rewrite length_skipn. lia.
Qed.

Lemma Forall2_pointwise {U V} (R : U -> V -> Prop) (l1 : list U) (l2 : list V) :
  length l1 = length l2 ->
  (forall i a b, nth_error l1 i = Some a -> nth_error l2 i = Some b -> R a b) ->
  Forall2 R l1 l2.
Proof.
  revert l2; induction l1 as [|a l1 IH]; intros [|b l2] Hlen H;
    cbn in Hlen; try discriminate; constructor.
  - apply (H 0); reflexivity.
  - apply IH; [lia|]. intros i; apply (H (S i)).
Qed.

Section PoolMap.

Context {A B : Type} (f : A -> res B) (xs : list A).

Lemma pool_step_inv st i : pool_inv f xs st -> pool_inv f xs (pool_step f xs st i).
Proof.
  destruct st as [buf err]; intros (Hlen & Hbuf & Herr); cbn [fst snd] in *.
  unfold pool_step.
  destruct (nth_error xs i) as [x|] eqn:Ex; [|repeat split; auto].
  assert (Hi : i < length buf).
  { rewrite Hlen. apply nth_error_Some. congruence. }
  destruct (f x) as [e|y] eqn:Efx;
    cbv beta iota zeta delta [fst snd pool_inv].
  - split; [exact Hlen|]. split; [exact Hbuf|].
    intros e' He'. destruct err as [e0|]; [auto|].
    injection He' as <-. exists x; split; [|exact Efx].
    eapply nth_error_In; eauto.
  - split; [rewrite length_store; auto|]. split; [|exact Herr].
    intros j y'. rewrite nth_error_store by exact Hi.
    destruct (Nat.eqb_spec j i) as [->|_]; [|apply Hbuf].
    intros H; injection H as <-. eauto.
Qed.

Lemma pool_step_done st i : pool_inv f xs st -> i < length xs ->
  pool_done (pool_step f xs st i) i.
Proof.
  destruct st as [buf err]; intros (Hlen & _ & _) Hi; cbn [fst snd] in *.
  unfold pool_step, pool_done.
  destruct (nth_error xs i) as [x|] eqn:Ex.
  2:{ apply nth_error_None in Ex. lia. }
  destruct (f x) as [e|y]; cbv beta iota zeta delta [fst snd].
  - right. destruct err; discriminate.
  - left. exists y. rewrite nth_error_store by lia.
    now rewrite Nat.eqb_refl.
Qed.

Lemma pool_step_keeps_done st i j : pool_inv f xs st ->
  pool_done st j -> pool_done (pool_step f xs st i) j.
Proof.
  destruct st as [buf err]; intros (Hlen & _ & _) Hd; cbn [fst snd] in *.
  unfold pool_step, pool_done in *; cbn [fst snd] in *.
  destruct (nth_error xs i) as [x|] eqn:Ex; [|exact Hd].
  assert (Hi : i < length buf).
  { rewrite Hlen. apply nth_error_Some. congruence. }
  destruct (f x) as [e|y]; cbv beta iota zeta delta [fst snd].
  - destruct Hd as [Hd|Hd]; [left; exact Hd|right].
    destruct err; [discriminate|congruence].
  - destruct Hd as [[y' Hy']|Hd]; [left|right; exact Hd].
    rewrite nth_error_store by exact Hi.
    destruct (j =? i); eauto.
Qed.

Lemma pool_run_inv (order : list nat) st :
  pool_inv f xs st -> pool_inv f xs (fold_left (pool_step f xs) order st).
Proof.
  revert st; induction order as [|i order IH]; intros st H; cbn; auto.
  apply IH, pool_step_inv, H.
Qed.

Lemma pool_run_keeps_done (order : list nat) st j :
  pool_inv f xs st -> pool_done st j ->
  pool_done (fold_left (pool_step f xs) order st) j.
Proof.
  revert st; induction order as [|i order IH]; intros st Hinv Hd; cbn; auto.
  apply IH; [apply pool_step_inv, Hinv | apply pool_step_keeps_done; auto].
Qed.

Lemma pool_run_done (order : list nat) st j :
  pool_inv f xs st -> In j order -> j < length xs ->
  pool_done (fold_left (pool_step f xs) order st) j.
Proof.
  revert st; induction order as [|i order IH]; intros st Hinv Hin Hj;
    cbn in *; [easy|].
  destruct Hin as [-> | Hin].
  - apply pool_run_keeps_done; [apply pool_step_inv, Hinv|].
    apply pool_step_done; auto.
  - apply IH; auto. apply pool_step_inv, Hinv.
Qed.

Lemma pool_inv_start : pool_inv f xs (repeat None (length xs), None).
Proof.
  repeat split; cbn.
  - apply repeat_length.
  - intros i y H. exfalso.
    assert (Hin : In (Some y) (repeat None (length xs)))
      by (eapply nth_error_In; eauto).
    apply repeat_spec in Hin. discriminate.
  - discriminate.
Qed.

Lemma collect_full (buf : list (option B)) :
  Forall2 (fun x o => exists y, o = Some y /\ f x = ok y) xs buf ->
  mapM f xs = ok (collect buf).
Proof.
  intros H. apply mapM_ok_Forall2.
  induction H as [|x o l l' (y & -> & Hy) _ IH]; cbn; constructor; auto.
Qed.

(** Whatever the order of completion, [Pool.map] returns what the
    comprehension returns; when it raises, it raises the failure of one
    of its tasks. *)
Lemma pool_map_spec (schedule : list nat) :
  match pool_map schedule f xs with
  | inr ys => mapM f xs = ok ys
  | inl e => exists x, In x xs /\ f x = raise e
  end.
Proof.
  unfold pool_map.
  set (order := (schedule ++ seq 0 (length xs))%list).
  pose proof (pool_run_inv order _ pool_inv_start) as Hinv.
  assert (Hdone : forall j, j < length xs ->
            pool_done (fold_left (pool_step f xs) order
                                 (repeat None (length xs), None)) j).
  { intros j Hj. apply pool_run_done; [apply pool_inv_start| |exact Hj].
    unfold order. apply in_or_app; right. apply in_seq. lia. }
  revert Hinv Hdone.
  destruct (fold_left (pool_step f xs) order (repeat None (length xs), None))
    as [buf err].
  unfold pool_done; cbn [fst snd].
  intros (Hlen & Hbuf & Herr) Hdone; cbn [fst snd] in *.
  destruct err as [e|]; [now apply Herr|].
  apply collect_full, Forall2_pointwise; [now rewrite Hlen|].
  intros i x o Hx Ho.
  assert (Hi : i < length xs) by (apply nth_error_Some; congruence).
  destruct (Hdone i Hi) as [[y Hy]|Hbad]; [|congruence].
  exists y. rewrite Hy in Ho; injection Ho as <-. split; [reflexivity|].
  destruct (Hbuf i y Hy) as (x' & Hx' & Hfx).
  rewrite Hx in Hx'; injection Hx' as <-. exact Hfx.
Qed.

Lemma pool_map_ok_iff (schedule : list nat) (ys : list B) :
  pool_map schedule f xs = ok ys <-> mapM f xs = ok ys.
Proof.
  pose proof (pool_map_spec schedule) as H.
  destruct (pool_map schedule f xs) as [e|ys'] eqn:Ep.
  - destruct H as (x & Hin & Hx).
    destruct (mapM_In_raise f xs x e Hin Hx) as [e' He'].
    rewrite He'. split; discriminate.
  - rewrite H. reflexivity.
Qed.

End PoolMap.

(* ================================================================== *)
(** ** Decoding and loading images *)

Lemma items_np_array (ro : bool) (xs : list tensor) (b : batch) :
  np_array ro xs = ok b -> items b = xs.
Proof.
  destruct xs as [|x rest]; [intros H; injection H as <-; reflexivity|].
  unfold np_array.
  destruct (forallb (fun y => shape_eqb (shape x) (shape y)) rest) eqn:Hall.
  2:{ destruct (negb ro); [discriminate|].
      destruct (forallb _ (x :: rest)); [discriminate|].
      intros H; injection H as <-. reflexivity. }
  intros H; injection H as <-.
  cbn. destruct x as [s d]; cbn in *. f_equal.
  rewrite forallb_forall in Hall.
  induction rest as [|y rest IH]; [reflexivity|].
  cbn. assert (Hy : shape_eqb s (shape y) = true) by (apply Hall; now left).
  unfold shape_eqb in Hy. destruct (list_eq_dec Nat.eq_dec s (shape y)) as [->|];
    [|discriminate].
  destruct y as [sy dy]; cbn. f_equal.
  apply IH. intros z Hz. apply Hall. now right.
Qed.

Lemma np_array_uniform (ro : bool) (xs : list tensor) (s : list nat) :
  xs <> [] -> Forall (fun x => shape x = s) xs ->
  np_array ro xs = ok (BDense s (map data xs)).
Proof.
  intros Hne Hall. destruct xs as [|x rest]; [congruence|].
  inversion Hall as [|? ? Hx Hrest]; subst.
  unfold np_array.
  assert (E : forallb (fun y => shape_eqb (shape x) (shape y)) rest = true).
  { apply forallb_forall. intros y Hy. rewrite Forall_forall in Hrest.
    unfold shape_eqb. rewrite (Hrest y Hy).
    now destruct (list_eq_dec Nat.eq_dec (shape x) (shape x)). }
  now rewrite E.
Qed.

Lemma np_array_one_shape (ro : bool) (xs : list tensor) (s : list nat) :
  Forall (fun x => shape x = s) xs -> exists b, np_array ro xs = ok b.
Proof.
  intros Hall. destruct xs as [|x rest]; [now exists (BDense [] [])|].
  eexists. apply (np_array_uniform ro (x :: rest) s); [discriminate|exact Hall].
Qed.

Lemma read_images_unfold (w : World) names dir parallel :
  read_images w names dir parallel
  = if path_isdir w dir then
      bind (decode_all w names dir parallel) (np_array (ragged_objects w))
    else raise (ValueError "Directory containing images does not exist").
Proof. unfold read_images, decode_all. now destruct (path_isdir w dir). Qed.

Lemma decode_all_ok_iff (w : World) names dir parallel (imgs : list tensor) :
  decode_all w names dir parallel = ok imgs <->
  Forall2 (fun name img => _image_to_array w (OsPath.join dir name) = ok img)
          names imgs.
Proof.
  unfold decode_all. destruct parallel.
  - rewrite pool_map_ok_iff, mapM_ok_Forall2.
    split; intros H.
    + remember (map (OsPath.join dir) names) as ps eqn:E.
      revert names E. induction H; intros [|n names] E; try discriminate;
        constructor; injection E as -> ->; auto.
    + induction H; cbn; constructor; auto.
  - rewrite mapM_ok_Forall2.
    split; intros H.
    + remember (map (OsPath.join dir) names) as ps eqn:E.
      revert names E. induction H; intros [|n names] E; try discriminate;
        constructor; injection E as -> ->; auto.
    + induction H; cbn; constructor; auto.
Qed.

Lemma decode_all_raise (w : World) names dir parallel (e : exn) :
  decode_all w names dir parallel = raise e ->
  exists name, In name names /\ _image_to_array w (OsPath.join dir name) = raise e.
Proof.
  unfold decode_all. destruct parallel.
  - pose proof (pool_map_spec (_image_to_array w) (map (OsPath.join dir) names)
                  (pool_schedule w (map (OsPath.join dir) names))) as H.
    intros E. rewrite E in H. destruct H as (p & Hin & Hp).
    apply in_map_iff in Hin. destruct Hin as (name & <- & Hin). eauto.
  - intros E. apply mapM_raise_first in E.
    destruct E as (pre & p & post & Hxs & Hp & _).
    assert (Hin : In p (map (OsPath.join dir) names)).
    { rewrite Hxs. apply in_or_app. right. now left. }
    apply in_map_iff in Hin. destruct Hin as (name & <- & Hin). eauto.
Qed.

Lemma decode_all_mode (w : World) names dir (imgs : list tensor) :
  decode_all w names dir true = ok imgs
  <-> decode_all w names dir false = ok imgs.
Proof. now rewrite !decode_all_ok_iff. Qed.

(** C7.  Decoding an existing image file gives an array of three axes: an
    image the codec returns with two axes gets a third one of size 1 and
    keeps its data, an image with three axes is returned as it is; the last
    axis has size at least 1. *)
Theorem image_to_array_three_axes (w : World) (p : string) (raw : tensor) :
  path_exists w p = true ->
  imread w p = ok raw ->
  ndim raw = 2 \/ ndim raw = 3 ->
  Forall (fun d => 1 <= d) (shape raw) ->
  exists h wd c,
    _image_to_array w p = ok (mkTensor [h; wd; c] (data raw))
    /\ 1 <= c
    /\ (ndim raw = 2 -> shape raw = [h; wd] /\ c = 1)
    /\ (ndim raw = 3 -> shape raw = [h; wd; c]).
Proof.
  intros Hex Hread Hdim Hpos.
  unfold _image_to_array, read_image. rewrite Hex, Hread; cbn.
  destruct raw as [s d]; unfold ndim in *; cbn in *.
  destruct Hdim as [H2 | H3].
  - destruct s as [|h [|wd [|? ?]]]; try discriminate.
    exists h, wd, 1. cbn. repeat split; auto; discriminate.
  - destruct s as [|h [|wd [|c [|? ?]]]]; try discriminate.
    exists h, wd, c. cbn. repeat split; auto; try discriminate.
    inversion Hpos as [|? ? _ H1]; inversion H1 as [|? ? _ H2];
      inversion H2; auto.
Qed.

Lemma image_to_array_three_axes_witness :
  _image_to_array Sample.world "imgs/a.png"
    = ok (mkTensor [2; 2; 1] [0; 64; 128; 255]%Z)
  /\ _image_to_array Sample.world "imgs/b.png" = ok Sample.rgb.
Proof.
  split.
  - destruct (image_to_array_three_axes Sample.world "imgs/a.png" Sample.gray)
      as (h & wd & c & E & _ & H2 & _).
    + reflexivity.
    + reflexivity.
    + left; reflexivity.
    + repeat constructor.
    + destruct (H2 eq_refl) as [Hs ->]. injection Hs as <- <-. exact E.
  - destruct (image_to_array_three_axes Sample.world "imgs/b.png" Sample.rgb)
      as (h & wd & c & E & _ & _ & H3).
    + reflexivity.
    + reflexivity.
    + right; reflexivity.
    + repeat constructor.
    + injection (H3 eq_refl) as <- <- <-. exact E.
Defined.

(** C6.  A path that does not exist makes the decoder raise its
    image-not-found error (the [ValueError] saying that the image does not
    exist); a batch holding such a path is aborted, parallel or not:
    [read_images] returns no batch but raises, and what it raises is, when
    the directory exists, the error of one of the images of the batch,
    which in sequential mode is the error of the first image that fails. *)
Theorem missing_image_aborts_batch
    (w : World) (names : list string) (dir name : string) (parallel : bool) :
  In name names ->
  path_exists w (OsPath.join dir name) = false ->
  _image_to_array w (OsPath.join dir name)
  = raise (ValueError (OsPath.join dir name ++ " image does not exist")%string)
  /\ exists e,
       read_images w names dir parallel = raise e
       /\ (path_isdir w dir = false ->
           e = ValueError "Directory containing images does not exist")
       /\ (path_isdir w dir = true ->
           exists name', In name' names
             /\ _image_to_array w (OsPath.join dir name') = raise e)
       /\ (path_isdir w dir = true -> parallel = false ->
           forall pre post,
             names = (pre ++ name :: post)%list ->
             Forall (fun n => exists img,
                       _image_to_array w (OsPath.join dir n) = ok img) pre ->
             e = ValueError (OsPath.join dir name ++ " image does not exist")%string).
Proof.
  intros Hin Hmiss.
  assert (Hdec : _image_to_array w (OsPath.join dir name)
            = raise (ValueError (OsPath.join dir name ++ " image does not exist")%string)).
  { unfold _image_to_array. now rewrite Hmiss. }
  split; [exact Hdec|].
  rewrite read_images_unfold.
  destruct (path_isdir w dir) eqn:Hdir.
  - destruct (decode_all w names dir parallel) as [e|imgs] eqn:Ed.
    + exists e. cbn. split; [reflexivity|]. split; [discriminate|].
      split; [intros _; now apply decode_all_raise with (parallel := parallel)|].
      intros _ -> pre post -> Hpre.
      unfold decode_all in Ed. rewrite map_app in Ed; cbn in Ed.
      assert (E' : mapM (_image_to_array w)
                (map (OsPath.join dir) pre ++ OsPath.join dir name
                   :: map (OsPath.join dir) post)
              = raise (ValueError (OsPath.join dir name ++ " image does not exist")%string)).
      { apply mapM_raise_first. eexists _, _, _. split; [reflexivity|].
        split; [exact Hdec|].
        apply Forall_map. exact Hpre. }
      unfold raise in *. congruence.
    + exfalso. apply decode_all_ok_iff in Ed.
      clear -Ed Hin Hdec. induction Ed as [|n i l l' Hn _ IH]; [easy|].
      destruct Hin as [-> | Hin]; [unfold ok, raise in *; congruence|auto].
  - exists (ValueError "Directory containing images does not exist").
    repeat split; try discriminate.
Qed.

Lemma missing_image_aborts_batch_witness :
  _image_to_array Sample.world (OsPath.join "imgs" "z.png")
  = raise (ValueError "imgs/z.png image does not exist")
  /\ read_images Sample.world ["a.png"; "z.png"; "b.png"] "imgs" false
     = raise (ValueError "imgs/z.png image does not exist")
  /\ exists e, read_images Sample.world ["a.png"; "z.png"; "b.png"] "imgs" true
               = raise e.
Proof.
  destruct (missing_image_aborts_batch Sample.world ["a.png"; "z.png"; "b.png"]
              "imgs" "z.png" false) as (Hd & e & He & _ & _ & Hfirst).
  { cbn; auto. }
  { reflexivity. }
  destruct (missing_image_aborts_batch Sample.world ["a.png"; "z.png"; "b.png"]
              "imgs" "z.png" true) as (_ & e' & He' & _).
  { cbn; auto. }
  { reflexivity. }
  split; [exact Hd|]. split; [|exists e'; exact He'].
  rewrite He. f_equal.
  apply (Hfirst eq_refl eq_refl ["a.png"] ["b.png"] eq_refl).
  repeat constructor. eexists. reflexivity.
Defined.

(** C4.  Over an existing directory, [read_images] returns a batch in
    parallel mode exactly when it does in sequential mode, and then the
    same batch; in both modes element [i] of the batch is the decoded image
    of file name [i]; when every image of the list decodes, both modes end
    as [np.asanyarray] of the decoded images does, and that is with a
    batch when the images have one shape. *)
Theorem read_images_parallel_sequential
    (w : World) (names : list string) (dir : string) :
  path_isdir w dir = true ->
  (forall b, read_images w names dir true = ok b
             <-> read_images w names dir false = ok b)
  /\ (forall parallel b,
        read_images w names dir parallel = ok b ->
        Forall2 (fun name img =>
                   _image_to_array w (OsPath.join dir name) = ok img)
                names (items b))
  /\ (forall imgs,
        Forall2 (fun name img =>
                   _image_to_array w (OsPath.join dir name) = ok img)
                names imgs ->
        (forall parallel,
           read_images w names dir parallel = np_array (ragged_objects w) imgs)
        /\ (forall s, Forall (fun img => shape img = s) imgs ->
             exists b, forall parallel,
               read_images w names dir parallel = ok b)).
Proof.
  intros Hdir.
  assert (Hboth : forall imgs,
            Forall2 (fun name img =>
                       _image_to_array w (OsPath.join dir name) = ok img)
                    names imgs ->
            forall parallel,
              read_images w names dir parallel
              = np_array (ragged_objects w) imgs).
  { intros imgs Hall parallel.
    rewrite read_images_unfold, Hdir.
    apply (decode_all_ok_iff w names dir parallel) in Hall.
    now rewrite Hall. }
  split; [|split].
  - intros b. rewrite !read_images_unfold, Hdir.
    destruct (decode_all w names dir true) as [e|imgs] eqn:Et;
      destruct (decode_all w names dir false) as [e'|imgs'] eqn:Ef;
      cbn [bind];
      try (split; discriminate).
    + apply decode_all_mode in Ef. unfold ok in *; congruence.
    + apply decode_all_mode in Et. unfold ok in *; congruence.
    + apply decode_all_mode in Et. unfold ok in *.
      assert (imgs = imgs') by congruence. subst. reflexivity.
  - intros parallel b. rewrite read_images_unfold, Hdir.
    destruct (decode_all w names dir parallel) as [e|imgs] eqn:Ed;
      cbn [bind]; [discriminate|].
    intros H. rewrite (items_np_array _ _ _ H).
    now apply decode_all_ok_iff in Ed.
  - intros imgs Hall. split; [exact (Hboth imgs Hall)|].
    intros s Hs.
    destruct (np_array_one_shape (ragged_objects w) imgs s Hs) as [b Hb].
    exists b. intros parallel. now rewrite (Hboth imgs Hall).
Qed.

Lemma read_images_parallel_sequential_witness :
  read_images Sample.world ["a.png"; "b.png"] "imgs" true
  = read_images Sample.world ["a.png"; "b.png"] "imgs" false
  /\ exists b, read_images Sample.world ["a.png"; "b.png"] "imgs" true = ok b
       /\ Forall2 (fun name img =>
                     _image_to_array Sample.world (OsPath.join "imgs" name) = ok img)
                  ["a.png"; "b.png"] (items b).
Proof.
  destruct (read_images_parallel_sequential Sample.world ["a.png"; "b.png"] "imgs")
    as (_ & Horder & Hall).
  { reflexivity. }
  destruct (Hall [mkTensor [2; 2; 1] [0; 64; 128; 255]%Z; Sample.rgb])
    as [Hboth _].
  { repeat constructor. }
  split.
  - now rewrite !Hboth.
  - exists (BObject [mkTensor [2; 2; 1] [0; 64; 128; 255]%Z; Sample.rgb]).
    split; [rewrite Hboth; reflexivity|].
    apply (Horder true). rewrite Hboth. reflexivity.
Defined.

(* ================================================================== *)
(** ** The median *)

Section SortedLists.

Lemma filter_length_mono {T} (f g : T -> bool) (l : list T) :
  (forall x, In x l -> f x = true -> g x = true) ->
  length (filter f l) <= length (filter g l).
Proof.
  induction l as [|a l IH]; intros H; cbn; [lia|].
  assert (IH' : length (filter f l) <= length (filter g l)).
  { apply IH. intros x Hx. apply H. now right. }
  destruct (f a) eqn:Efa.
  - rewrite (H a (or_introl eq_refl) Efa). cbn. lia.
  - destruct (g a); cbn; lia.
Qed.

Lemma filter_length_perm {T} (f : T -> bool) (l l' : list T) :
  Permutation l l' -> length (filter f l) = length (filter f l').
Proof.
  induction 1 as [|a l l' _ IH|a b l|l l' l'' _ IH1 _ IH2]; cbn.
  - reflexivity.
  - destruct (f a); cbn; lia.
  - destruct (f a), (f b); cbn; lia.
  - lia.
Qed.

Lemma sorted_Zle (l : list Z) : StronglySorted Z.le (ZSort.sort l).
Proof.
  assert (H : StronglySorted (fun a b => is_true (Z.leb a b)) (ZSort.sort l)).
  { apply ZSort.StronglySorted_sort.
    intros a b c Hab Hbc. unfold is_true in *.
    apply Z.leb_le in Hab, Hbc. apply Z.leb_le. lia. }
  induction H as [|a s _ IH Hall]; constructor; auto.
  eapply Forall_impl; [|exact Hall].
  intros b Hb. now apply Z.leb_le.
Qed.

Lemma sorted_nth_mono (s : list Z) (i j : nat) :
  StronglySorted Z.le s -> i <= j -> j < length s ->
  (nth i s 0 <= nth j s 0)%Z.
Proof.
  intros Hs. revert i j.
  induction Hs as [|a s Hs IH Hall]; intros i j Hij Hj; cbn in Hj; [lia|].
  destruct i as [|i], j as [|j]; cbn; try lia.
  - rewrite Forall_forall in Hall. apply Hall. apply nth_In. lia.
  - apply IH; lia.
Qed.

Lemma sorted_count_below (s : list Z) (k : nat) :
  StronglySorted Z.le s -> k < length s ->
  k + 1 <= length (filter (fun x => (x <=? nth k s 0)%Z) s).
Proof.
  intros Hs. revert k.
  induction Hs as [|a s Hs IH Hall]; intros k Hk; cbn in Hk; [lia|].
  destruct k as [|k]; cbn [nth filter].
  - rewrite Z.leb_refl. cbn. lia.
  - assert (Ha : (a <=? nth k s 0)%Z = true).
    { apply Z.leb_le. rewrite Forall_forall in Hall.
      apply Hall, nth_In. lia. }
    rewrite Ha. cbn. specialize (IH k). lia.
Qed.

Lemma sorted_count_above (s : list Z) (k : nat) :
  StronglySorted Z.le s -> k < length s ->
  length s - k <= length (filter (fun x => (nth k s 0 <=? x)%Z) s).
Proof.
  intros Hs. revert k.
  induction Hs as [|a s Hs IH Hall]; intros k Hk; cbn in Hk; [lia|].
  destruct k as [|k]; cbn [nth filter length].
  - rewrite Z.leb_refl. cbn [length].
    assert (E : filter (fun x => (a <=? x)%Z) s = s).
    { apply forallb_filter_id. apply forallb_forall.
      rewrite Forall_forall in Hall.
      intros x Hx. apply Z.leb_le. auto. }
    rewrite E. lia.
  - specialize (IH k).
    destruct (nth k s 0 <=? a)%Z; cbn [length]; lia.
Qed.

End SortedLists.

(** The two middle values [lo <= hi] of a non-empty list (the same value
    when the length is odd): [np.median] is their mean, and half of the
    values are at most [lo], half at least [hi]. *)
Lemma np_median_middle (xs : list Z) :
  xs <> [] ->
  exists lo hi,
    In lo xs /\ In hi xs /\ (lo <= hi)%Z
    /\ (np_median xs = Fin (inject_Z lo) /\ lo = hi
        \/ np_median xs = Fin (Qmake (lo + hi) 2))
    /\ length xs <= 2 * length (filter (fun x => (x <=? lo)%Z) xs)
    /\ length xs <= 2 * length (filter (fun x => (hi <=? x)%Z) xs).
Proof.
  intros Hne.
  pose proof (ZSort.Permuted_sort xs) as Hperm.
  pose proof (sorted_Zle xs) as Hs.
  unfold np_median.
  set (s := ZSort.sort xs) in *.
  assert (Hlen : length s = length xs) by (symmetry; apply Permutation_length, Hperm).
  assert (Hpos : 0 < length s).
  { rewrite Hlen. destruct xs; [congruence|cbn; lia]. }
  assert (Hin : forall k, k < length s -> In (nth k s 0%Z) xs).
  { intros k Hk. eapply Permutation_in; [symmetry; exact Hperm|].
    apply nth_In, Hk. }
  destruct (Nat.eqb_spec (length s) 0) as [E0|_]; [lia|].
  assert (Hdiv : length s = 2 * (length s / 2) + length s mod 2)
    by (apply Nat.div_mod_eq).
  destruct (Nat.even (length s)) eqn:Eev.
  - assert (Hmod : length s mod 2 = 0).
    { apply Nat.even_spec in Eev. destruct Eev as [q Hq].
      rewrite Hq, Nat.mul_comm. apply Nat.Div0.mod_mul. }
    set (k := length s / 2) in *.
    exists (nth (k - 1) s 0%Z), (nth k s 0%Z).
    assert (Hk : 1 <= k) by lia.
    repeat split.
    + apply Hin; lia.
    + apply Hin; lia.
    + apply sorted_nth_mono; auto; lia.
    + right; reflexivity.
    + rewrite <- Hlen, (filter_length_perm _ _ _ Hperm).
      pose proof (sorted_count_below s (k - 1) Hs). fold s. lia.
    + rewrite <- Hlen, (filter_length_perm _ _ _ Hperm).
      pose proof (sorted_count_above s k Hs). fold s. lia.
  - assert (Hmod : length s mod 2 = 1).
    { pose proof (Nat.mod_upper_bound (length s) 2).
      destruct (length s mod 2) as [|[|?]] eqn:Em; try lia.
      exfalso. assert (Nat.even (length s) = true); [|congruence].
      apply Nat.even_spec. exists (length s / 2). lia. }
    set (k := length s / 2) in *.
    exists (nth k s 0%Z), (nth k s 0%Z).
    repeat split.
    + apply Hin; lia.
    + apply Hin; lia.
    + lia.
    + left; split; reflexivity.
    + rewrite <- Hlen, (filter_length_perm _ _ _ Hperm).
      pose proof (sorted_count_below s k Hs). fold s. lia.
    + rewrite <- Hlen, (filter_length_perm _ _ _ Hperm).
      pose proof (sorted_count_above s k Hs). fold s. lia.
Qed.

Lemma half_floor_nearest (s k : Z) :
  (Qabs (Qmake s 2 - inject_Z (s / 2)%Z) <= Qabs (Qmake s 2 - inject_Z k))%Q.
Proof.
  pose proof (Z.div_mod s 2 ltac:(lia)) as Hdm.
  pose proof (Z.mod_pos_bound s 2 ltac:(lia)) as Hb.
  unfold Qle, Qabs, Qminus, Qplus, Qopp, inject_Z; cbn.
  lia.
Qed.

(** [np.median] of non-negative integers is a median in the counting
    sense; [astype(int)] takes its floor, and no integer is nearer to the
    median than that. *)
Lemma np_median_spec (xs : list Z) :
  xs <> [] -> Forall (fun x => (0 <= x)%Z) xs ->
  exists m,
    np_median xs = Fin m
    /\ is_median m xs
    /\ astype_int (np_median xs) = Qfloor m
    /\ (forall k, (Qabs (m - inject_Z (Qfloor m)) <= Qabs (m - inject_Z k))%Q).
Proof.
  intros Hne Hnn.
  destruct (np_median_middle xs Hne)
    as (lo & hi & Hlo & Hhi & Hle & Hm & Hbelow & Habove).
  rewrite Forall_forall in Hnn.
  pose proof (Hnn lo Hlo) as Hlo0. pose proof (Hnn hi Hhi) as Hhi0.
  destruct Hm as [[Hm Heq] | Hm]; rewrite Hm.
  - subst hi. exists (inject_Z lo). split; [reflexivity|].
    split; [|split].
    + split.
      * etransitivity; [exact Hbelow|]. apply Nat.mul_le_mono_l.
        apply filter_length_mono. intros x _ Hx.
        apply Qle_bool_iff. rewrite <- Zle_Qle. now apply Z.leb_le.
      * etransitivity; [exact Habove|]. apply Nat.mul_le_mono_l.
        apply filter_length_mono. intros x _ Hx.
        apply Qle_bool_iff. rewrite <- Zle_Qle. now apply Z.leb_le.
    + cbn. rewrite Z.quot_1_r. unfold Qfloor; cbn. now rewrite Z.div_1_r.
    + intros k. rewrite Qfloor_Z.
      assert (E : (inject_Z lo - inject_Z lo == 0)%Q) by ring.
      rewrite E. apply Qabs_nonneg.
  - exists (Qmake (lo + hi) 2). split; [reflexivity|].
    split; [|split].
    + split.
      * etransitivity; [exact Hbelow|]. apply Nat.mul_le_mono_l.
        apply filter_length_mono. intros x _ Hx.
        apply Qle_bool_iff. apply Z.leb_le in Hx.
        unfold Qle; cbn. lia.
      * etransitivity; [exact Habove|]. apply Nat.mul_le_mono_l.
        apply filter_length_mono. intros x _ Hx.
        apply Qle_bool_iff. apply Z.leb_le in Hx.
        unfold Qle; cbn. lia.
    + cbn. unfold Qfloor. apply Z.quot_div_nonneg; lia.
    + intros k. unfold Qfloor. apply half_floor_nearest.
Qed.

Lemma nth_map_seq {T} (g : nat -> T) (r j : nat) (d : T) :
  j < r -> nth j (map g (seq 0 r)) d = g j.
Proof.
  intros Hj. rewrite (nth_indep _ d (g 0)) by (now rewrite length_map, length_seq).
  rewrite (map_nth g (seq 0 r) 0 j), seq_nth; auto.
Qed.

(** On a non-empty batch of images of [r] axes each, the function returns
    one integer per axis: the truncated median of the sizes along it. *)
Lemma compute_median_dimensions_columns (images : batch) (r : nat) :
  items images <> [] ->
  Forall (fun x => ndim x = r) (items images) ->
  compute_median_dimensions images
  = ok (V1 (map (fun j => astype_int (np_median (axis_sizes j images)))
                (seq 0 r))).
Proof.
  intros Hne Hrank.
  unfold compute_median_dimensions.
  assert (Hguard : is_none images || (length (batch_shape images) =? 0) = false).
  { destruct images; cbn in *; congruence. }
  rewrite Hguard.
  unfold axis_sizes.
  destruct (items images) as [|x rest]; [congruence|].
  inversion Hrank as [|? ? Hx Hrest]; subst.
  unfold np_median_axis0. cbn [map].
  assert (Hall : forallb (fun r' : list Z => length r' =? length (map Z.of_nat (shape x)))
                   (map (fun x0 => map Z.of_nat (shape x0)) rest) = true).
  { apply forallb_forall. intros row Hrow.
    apply in_map_iff in Hrow. destruct Hrow as (y & <- & Hy).
    rewrite Forall_forall in Hrest. unfold ndim in *.
    rewrite !length_map, (Hrest y Hy). apply Nat.eqb_refl. }
  rewrite Hall. cbn [bind vec_map ok]. unfold ok, ndim. do 2 f_equal.
  rewrite length_map, map_map. apply map_ext. intros j.
  do 2 f_equal. cbn [map]. f_equal.
  - change 0%Z with (Z.of_nat 0). apply map_nth.
  - rewrite map_map. apply map_ext. intros y.
    change 0%Z with (Z.of_nat 0). apply map_nth.
Qed.

Lemma axis_sizes_nonneg (j : nat) (images : batch) :
  Forall (fun x => (0 <= x)%Z) (axis_sizes j images).
Proof. apply Forall_map, Forall_forall. intros; lia. Qed.

Lemma axis_sizes_nonempty (j : nat) (images : batch) :
  items images <> [] -> axis_sizes j images <> [].
Proof. unfold axis_sizes. destruct (items images); cbn; congruence. Qed.

(** C2, as amended.  On a non-empty batch (of images with [r] axes each),
    [compute_median_dimensions] returns, for every axis, the median of the
    image sizes along that axis with its fraction dropped: the result is
    the floor of the median, and no integer is nearer to the median (a
    median that falls half-way between two integers goes to the lower
    one).  For images of shapes (10,10,3), (12,12,3) and (8,8,3) it
    returns (10,10,3). *)
Theorem compute_median_dimensions_median :
  (forall (images : batch) (r : nat),
     items images <> [] ->
     Forall (fun x => ndim x = r) (items images) ->
     exists dims,
       compute_median_dimensions images = ok (V1 dims)
       /\ length dims = r
       /\ forall j, j < r ->
            exists m,
              np_median (axis_sizes j images) = Fin m
              /\ is_median m (axis_sizes j images)
              /\ nth j dims 0%Z = Qfloor m
              /\ forall k, (Qabs (m - inject_Z (nth j dims 0%Z))
                            <= Qabs (m - inject_Z k))%Q)
  /\ (forall d1 d2 d3,
        compute_median_dimensions
          (BObject [mkTensor [10; 10; 3] d1; mkTensor [12; 12; 3] d2;
                    mkTensor [8; 8; 3] d3])
        = ok (V1 [10; 10; 3]%Z)).
Proof.
  split; [|reflexivity].
  intros images r Hne Hrank.
  eexists. split; [apply compute_median_dimensions_columns; eauto|].
  split; [now rewrite length_map, length_seq|].
  intros j Hj.
  destruct (np_median_spec (axis_sizes j images)
              (axis_sizes_nonempty j images Hne) (axis_sizes_nonneg j images))
    as (m & Hm & Hmed & Hfloor & Hnear).
  exists m. rewrite (nth_map_seq _ r j 0%Z Hj), Hfloor.
  repeat split; auto; apply Hmed.
Qed.

Lemma compute_median_dimensions_median_witness :
  exists dims,
    compute_median_dimensions
      (BObject [mkTensor [11; 10; 3] []; mkTensor [12; 14; 3] []])
    = ok (V1 dims)
    /\ length dims = 3.
Proof.
  destruct (proj1 compute_median_dimensions_median
              (BObject [mkTensor [11; 10; 3] []; mkTensor [12; 14; 3] []]) 3)
    as (dims & Hdims & Hlen & _).
  - discriminate.
  - repeat constructor.
  - exists dims. split; assumption.
Defined.

(** C2, counterexample.  The median is not rounded to the nearest
    integer: for two images of shapes (11,10,3) and (12,14,3) the median
    of the first axis is 23/2, which rounds to 12 (ties to the even
    integer, as [round] and [np.round] do, and ties upwards alike), and
    the code returns 11 for that axis. *)
Example compute_median_dimensions_truncates :
  compute_median_dimensions
    (BObject [mkTensor [11; 10; 3] []; mkTensor [12; 14; 3] []])
  = ok (V1 [11; 12; 3]%Z)
  /\ np_median
       (axis_sizes 0 (BObject [mkTensor [11; 10; 3] []; mkTensor [12; 14; 3] []]))
     = Fin (23 # 2)
  /\ round_half_even (23 # 2) = 12%Z
  /\ Qfloor ((23 # 2) + (1 # 2)) = 12%Z.
Proof. repeat split. Qed.

(* ================================================================== *)
(** ** Resampling to one shape *)

Lemma int_round_zoom (d : nat) (s : Z) :
  1 <= d -> int_round (mul_size d (true_divide s d)) = ok s.
Proof.
  intros Hd. unfold true_divide.
  destruct (Nat.eqb_spec d 0) as [->|_]; [lia|].
  cbn [mul_size int_round]. f_equal.
  unfold round_half_even; cbn [Qnum Qden Qmult inject_Z].
  assert (Hden : Z.pos (1 * Pos.of_nat d) = Z.of_nat d).
  { rewrite Pos.mul_1_l. destruct d as [|d]; [lia|].
    rewrite <- Pos.of_nat_succ. lia. }
  rewrite Hden.
  assert (Hq : (Z.of_nat d * s / Z.of_nat d = s)%Z).
  { rewrite Z.mul_comm. apply Z.div_mul. lia. }
  assert (Hm : ((Z.of_nat d * s) mod Z.of_nat d = 0)%Z).
  { rewrite Z.mul_comm. apply Z.mod_mul. lia. }
  rewrite Hq, Hm.
  destruct (Z.compare_spec (2 * 0) (Z.of_nat d)); lia || reflexivity.
Qed.

Lemma round_all_zoom (sh : list nat) (dims : list Z) :
  length dims = length sh -> Forall (fun d => 1 <= d) sh ->
  mapM (fun '(ii, jj) => int_round (mul_size ii jj))
       (combine sh (map2 true_divide dims sh))
  = ok dims.
Proof.
  revert dims; induction sh as [|d sh IH]; intros [|s dims] Hlen Hpos;
    cbn in Hlen; try discriminate; [reflexivity|].
  inversion Hpos as [|? ? Hd Hrest]; subst.
  cbn [map2 combine mapM].
  rewrite (int_round_zoom d s Hd). cbn [bind ok raise].
  rewrite IH by (auto; lia). reflexivity.
Qed.

(** Zooming an image without empty axis by the quotients of a target shape
    and its own shape gives an image of the target shape. *)
Lemma zoom_to_size (w : World) (x : tensor) (size : list nat) :
  1 <= ndim x -> length size = ndim x ->
  Forall (fun d => 1 <= d) (shape x) ->
  bind (np_divide (V1 (map Z.of_nat size)) (shape x)) (zoom w x)
  = ok (mkTensor size (spline w x size)).
Proof.
  intros Hr Hlen Hpos. unfold ndim in *.
  unfold np_divide. rewrite length_map, Hlen, Nat.eqb_refl. cbn [bind ok raise].
  unfold zoom, ndim.
  destruct (Nat.ltb_spec (length (shape x)) 1) as [|_]; [lia|].
  assert (Hl2 : length (map2 true_divide (map Z.of_nat size) (shape x))
                = length (shape x)).
  { clear -Hlen. revert Hlen. generalize (shape x) as sh.
    induction size as [|s size IH]; intros [|d sh] H; cbn in *;
      try discriminate; auto. }
  rewrite Hl2, Nat.eqb_refl. cbn [negb].
  rewrite round_all_zoom by (auto; now rewrite length_map).
  cbn [bind ok raise].
  assert (Hneg : existsb (fun d => (d <? 0)%Z) (map Z.of_nat size) = false).
  { clear. induction size as [|s size IH]; cbn; [reflexivity|].
    rewrite IH. destruct (Z.ltb_spec (Z.of_nat s) 0); [lia|reflexivity]. }
  rewrite Hneg.
  assert (Hback : map Z.to_nat (map Z.of_nat size) = size).
  { rewrite map_map. rewrite <- (map_id size) at 2.
    apply map_ext. intros; apply Nat2Z.id. }
  now rewrite Hback.
Qed.

Lemma zoom_all_to_size (w : World) (l : list tensor) (size : list nat) :
  1 <= length size ->
  Forall (fun x => ndim x = length size) l ->
  Forall (fun x => Forall (fun d => 1 <= d) (shape x)) l ->
  mapM (fun x => bind (np_divide (V1 (map Z.of_nat size)) (shape x))
                      (fun factors => zoom w x factors)) l
  = ok (map (fun x => mkTensor size (spline w x size)) l).
Proof.
  intros Hr Hrank Hshape. apply mapM_ok_Forall2.
  induction l as [|x l IH]; cbn; constructor;
    inversion Hrank; inversion Hshape; subst.
  - apply (zoom_to_size w x size); auto; lia.
  - apply IH; auto.
Qed.

Lemma median_at_least_one (xs : list Z) :
  xs <> [] -> Forall (fun x => (1 <= x)%Z) xs ->
  (1 <= astype_int (np_median xs))%Z.
Proof.
  intros Hne Hall.
  destruct (np_median_middle xs Hne) as (lo & hi & Hlo & Hhi & _ & Hm & _).
  rewrite Forall_forall in Hall.
  pose proof (Hall lo Hlo). pose proof (Hall hi Hhi).
  destruct Hm as [[-> _] | ->]; cbn.
  - now rewrite Z.quot_1_r.
  - rewrite Z.quot_div_nonneg by lia. apply Z.div_le_lower_bound; lia.
Qed.

Lemma median_of_constant (xs : list Z) (c : Z) :
  xs <> [] -> Forall (fun x => x = c) xs -> astype_int (np_median xs) = c.
Proof.
  intros Hne Hall.
  destruct (np_median_middle xs Hne) as (lo & hi & Hlo & Hhi & _ & Hm & _).
  rewrite Forall_forall in Hall.
  rewrite (Hall lo Hlo), (Hall hi Hhi) in Hm.
  destruct Hm as [[-> _] | ->]; cbn.
  - now rewrite Z.quot_1_r.
  - replace (c + c)%Z with (c * 2)%Z by lia. apply Z.quot_mul. lia.
Qed.

Lemma map_nth_seq {T} (l : list T) (d : T) :
  map (fun j => nth j l d) (seq 0 (length l)) = l.
Proof.
  apply nth_ext with (d := d) (d' := d).
  - now rewrite length_map, length_seq.
  - intros n Hn. rewrite length_map, length_seq in Hn.
    now rewrite nth_map_seq.
Qed.

Lemma median_shape_positive (r : nat) (images : batch) :
  well_shaped r images ->
  Forall (fun d => 1 <= d) (median_shape r images)
  /\ map Z.of_nat (median_shape r images)
     = map (fun j => astype_int (np_median (axis_sizes j images))) (seq 0 r).
Proof.
  intros (Hne & Hrank & Hpos).
  assert (H1 : forall j, In j (seq 0 r) ->
            (1 <= astype_int (np_median (axis_sizes j images)))%Z).
  { intros j Hj. apply in_seq in Hj.
    apply median_at_least_one; [now apply axis_sizes_nonempty|].
    unfold axis_sizes. apply Forall_map.
    rewrite Forall_forall in *. intros x Hx.
    specialize (Hpos x Hx). rewrite Forall_forall in Hpos.
    assert (1 <= nth j (shape x) 0); [|lia].
    apply Hpos, nth_In. specialize (Hrank x Hx). unfold ndim in Hrank. lia. }
  unfold median_shape. split.
  - apply Forall_map, Forall_forall. intros j Hj. specialize (H1 j Hj). lia.
  - rewrite map_map. apply map_ext_in. intros j Hj.
    specialize (H1 j Hj). lia.
Qed.

(** On a non-empty batch of images with [r >= 1] axes and no empty axis,
    [resize_images] returns the stacked array of the images resampled to
    the median shape. *)
Lemma resize_images_result (w : World) (images : batch) (r : nat) :
  1 <= r -> well_shaped r images ->
  resize_images w images None
  = ok (BDense (median_shape r images)
               (map (fun x => spline w x (median_shape r images))
                    (items images))).
Proof.
  intros Hr Hws.
  destruct (median_shape_positive r images Hws) as [Hpos Hsz].
  destruct Hws as (Hne & Hrank & Hshape).
  unfold resize_images.
  assert (Hguard : is_none images || (length (batch_shape images) =? 0) = false).
  { destruct images; cbn in *; congruence. }
  rewrite Hguard, (compute_median_dimensions_columns images r Hne Hrank).
  cbn [bind ok raise]. rewrite <- Hsz.
  set (size := median_shape r images) in *.
  assert (Hlen : length size = r).
  { unfold size, median_shape. now rewrite length_map, length_seq. }
  rewrite (zoom_all_to_size w (items images) size);
    [|lia|now rewrite Hlen|exact Hshape]. cbn [bind ok raise]. f_equal.
  rewrite (np_array_uniform _ _ size).
  - now rewrite map_map.
  - destruct (items images); cbn; congruence.
  - apply Forall_map, Forall_forall. reflexivity.
Qed.

Lemma median_shape_uniform (size : list nat) (ds : list (list pixel)) :
  ds <> [] -> median_shape (length size) (BDense size ds) = size.
Proof.
  intros Hne. unfold median_shape.
  etransitivity; [|apply (map_nth_seq size 0)].
  apply map_ext. intros j.
  rewrite (median_of_constant _ (Z.of_nat (nth j size 0))).
  - apply Nat2Z.id.
  - apply axis_sizes_nonempty. cbn. destruct ds; cbn; congruence.
  - unfold axis_sizes; cbn. rewrite map_map. apply Forall_map, Forall_forall.
    reflexivity.
Qed.

(** C8.  A non-empty batch of images (with [r >= 1] axes each and no empty
    axis), whatever their shapes, is resized to a batch in which every
    image has the same shape, the median shape; the median shape of the
    result is that shape, and resizing the result again leaves every image
    shape as it is. *)
Theorem resize_images_uniform_idempotent
    (w : World) (images : batch) (r : nat) :
  1 <= r ->
  items images <> [] ->
  Forall (fun x => ndim x = r) (items images) ->
  Forall (fun x => Forall (fun d => 1 <= d) (shape x)) (items images) ->
  exists size resized again,
    resize_images w images None = ok resized
    /\ length (items resized) = length (items images)
    /\ Forall (fun x => shape x = size) (items resized)
    /\ compute_median_dimensions resized = ok (V1 (map Z.of_nat size))
    /\ resize_images w resized None = ok again
    /\ map shape (items again) = map shape (items resized).
Proof.
  intros Hr Hne Hrank Hpos.
  assert (Hws : well_shaped r images) by (repeat split; auto).
  destruct (median_shape_positive r images Hws) as [Hsz _].
  set (size := median_shape r images) in *.
  set (ds := map (fun x => spline w x size) (items images)).
  assert (Hlen : length size = r).
  { unfold size, median_shape. now rewrite length_map, length_seq. }
  assert (Hds : ds <> []).
  { unfold ds. destruct (items images); cbn; congruence. }
  assert (Hws' : well_shaped r (BDense size ds)).
  { repeat split; cbn.
    - destruct ds; cbn; congruence.
    - apply Forall_map, Forall_forall. intros; exact Hlen.
    - apply Forall_map, Forall_forall. intros; exact Hsz. }
  assert (Hsize' : median_shape r (BDense size ds) = size).
  { rewrite <- Hlen. now apply median_shape_uniform. }
  exists size, (BDense size ds),
    (BDense size (map (fun x => spline w x size) (items (BDense size ds)))).
  split; [now apply resize_images_result|].
  split; [cbn; unfold ds; now rewrite !length_map|].
  split; [cbn; apply Forall_map, Forall_forall; reflexivity|].
  split.
  { pose proof Hws' as (Hne' & Hrank' & _).
    rewrite (compute_median_dimensions_columns _ r Hne' Hrank').
    destruct (median_shape_positive r (BDense size ds) Hws') as [_ E].
    now rewrite <- E, Hsize'. }
  split.
  { rewrite (resize_images_result w _ r Hr Hws'). now rewrite Hsize'. }
  cbn. rewrite !map_map. cbn. unfold ds. now rewrite !map_map.
Qed.

Lemma resize_images_uniform_idempotent_witness :
  exists size resized again,
    resize_images Sample.world
      (BObject [mkTensor [2; 2; 1] [0; 64; 128; 255]%Z; Sample.rgb]) None
    = ok resized
    /\ length (items resized) = 2
    /\ Forall (fun x => shape x = size) (items resized)
    /\ compute_median_dimensions resized = ok (V1 (map Z.of_nat size))
    /\ resize_images Sample.world resized None = ok again
    /\ map shape (items again) = map shape (items resized).
Proof.
  apply (resize_images_uniform_idempotent Sample.world
           (BObject [mkTensor [2; 2; 1] [0; 64; 128; 255]%Z; Sample.rgb]) 3).
  - lia.
  - discriminate.
  - repeat constructor.
  - repeat constructor.
Defined.

(** C5.  A batch that is [None] or has no axis is returned as it is. *)
Theorem resize_images_shapeless_identity
    (w : World) (images : batch) (size : option (vec Z)) :
  is_none images = true \/ batch_shape images = [] ->
  resize_images w images size = ok images.
Proof.
  intros H. unfold resize_images.
  destruct images as [|x|s ds|ts]; cbn; try reflexivity;
    destruct H as [H|H]; discriminate.
Qed.

Lemma resize_images_shapeless_identity_witness :
  resize_images Sample.world BNone None = ok BNone
  /\ resize_images Sample.world (BScalar 7%Z) None = ok (BScalar 7%Z).
Proof.
  split.
  - apply (resize_images_shapeless_identity Sample.world BNone None).
    left; reflexivity.
  - apply (resize_images_shapeless_identity Sample.world (BScalar 7%Z) None).
    right; reflexivity.
Defined.

(** C5, as stated, fails on an empty batch: an array of shape
    (0, 10, 10, 3), which holds no image, passes the guard and comes back
    as the empty array of shape (0,). *)
Lemma resize_images_empty_batch_changed :
  batch_shape (BDense [10; 10; 3] []) = [0; 10; 10; 3]
  /\ items (BDense [10; 10; 3] []) = []
  /\ resize_images Sample.world (BDense [10; 10; 3] []) None = ok (BDense [] [])
  /\ batch_shape (BDense [] []) = [0]
  /\ resize_images Sample.world (BDense [10; 10; 3] []) None
     <> ok (BDense [10; 10; 3] []).
Proof. repeat split. discriminate. Qed.

(* ================================================================== *)
(** ** Normalisation uses the mean of the training batch *)

Section NormalizerFacts.

Variables A F : Type.
Variable to_float : A -> F.
Variables fadd fsub fdiv : F -> F -> F.
Variable float_of_nat : nat -> F.
Variables fzero f255 : F.

Lemma fold_map2_nth {k} (rest : list (fimage F k)) (x : fimage F k)
    (j : Fin.t k) :
  Vector.nth (fold_left (Vector.map2 fadd) rest x) j
  = fold_left fadd (map (fun v => Vector.nth v j) rest) (Vector.nth x j).
Proof.
  revert x; induction rest as [|y rest IH]; intros x; cbn; [reflexivity|].
  rewrite IH. f_equal. now apply Vector.nth_map2.
Qed.

Lemma np_mean0_nth {k} (xs : list (image A k)) (j : Fin.t k) :
  Vector.nth (np_mean0 A F to_float fadd fdiv float_of_nat fzero xs) j
  = mean_at A F to_float fadd fdiv float_of_nat fzero xs j.
Proof.
  unfold np_mean0, mean_at, column_sum.
  rewrite (Vector.nth_map _ _ j j eq_refl). f_equal.
  destruct xs as [|x rest]; cbn.
  - apply Vector.const_nth.
  - rewrite fold_map2_nth, map_map.
    rewrite (Vector.nth_map _ _ j j eq_refl). f_equal.
    apply map_ext. intros v. now apply Vector.nth_map.
Qed.

Lemma center_scale_nth {k} (xs : list (image A k)) (mean : fimage F k)
    (i : nat) (j : Fin.t k) :
  option_map (fun y => Vector.nth y j)
    (nth_error (center_scale A F to_float fsub fdiv f255 xs mean) i)
  = option_map
      (fun x => fdiv (fsub (to_float (Vector.nth x j)) (Vector.nth mean j)) f255)
      (nth_error xs i).
Proof.
  unfold center_scale, image, fimage in *. rewrite nth_error_map.
  destruct (nth_error xs i) as [x|]; cbn; [|reflexivity].
  f_equal.
  rewrite (Vector.nth_map _ _ j j eq_refl).
  rewrite (Vector.nth_map2 _ _ _ j j j eq_refl eq_refl).
  now rewrite (Vector.nth_map _ _ j j eq_refl).
Qed.

(** C3.  [normalize_images] takes the mean, entry by entry, over the
    training batch alone, and returns both batches with that mean
    subtracted and the difference divided by 255: entry [j] of image [i]
    of either output is [(x - mean_j) / 255] for the entry [x] of the
    corresponding input image, [mean_j] being the average of the entries
    [j] of the training images.  Nothing of the test batch enters the
    mean. *)
Theorem normalize_images_uses_train_mean
    {k} (x_train x_test : list (image A k)) (i : nat) (j : Fin.t k) :
  option_map (fun y => Vector.nth y j)
    (nth_error
       (fst (normalize_images A F to_float fadd fsub fdiv float_of_nat
               fzero f255 x_train x_test)) i)
  = option_map
      (fun x =>
         fdiv (fsub (to_float (Vector.nth x j))
                    (mean_at A F to_float fadd fdiv float_of_nat fzero
                       x_train j)) f255)
      (nth_error x_train i)
  /\
  option_map (fun y => Vector.nth y j)
    (nth_error
       (snd (normalize_images A F to_float fadd fsub fdiv float_of_nat
               fzero f255 x_train x_test)) i)
  = option_map
      (fun x =>
         fdiv (fsub (to_float (Vector.nth x j))
                    (mean_at A F to_float fadd fdiv float_of_nat fzero
                       x_train j)) f255)
      (nth_error x_test i).
Proof.
  unfold normalize_images; cbn [fst snd].
  rewrite !center_scale_nth, np_mean0_nth. split; reflexivity.
Qed.

End NormalizerFacts.

(** With one training image (0, 255) and one test image (255, 0) the mean
    is the training image itself: the training output is (0, 0) and the
    test output (1, -1), where centring the test image on its own mean
    would have given (0, 0). *)
Example normalize_images_train_mean_pair :
  normalize_images_Q [Vector.of_list [0; 255]%Q] [Vector.of_list [255; 0]%Q]
  = ([Vector.of_list [0; 0]%Q], [Vector.of_list [1; -1]%Q]).
Proof. reflexivity. Qed.

(** Two single-pixel training images 0 and 255 have mean 255/2; the test
    images 255 and 255, whose own mean is 255, are centred on 255/2. *)
Example normalize_images_train_mean_pixels :
  normalize_images_Q
    [Vector.of_list [0%Q]; Vector.of_list [255%Q]]
    [Vector.of_list [255%Q]; Vector.of_list [255%Q]]
  = ([Vector.of_list [-1 # 2]%Q; Vector.of_list [1 # 2]%Q],
     [Vector.of_list [1 # 2]%Q; Vector.of_list [1 # 2]%Q]).
Proof. reflexivity. Qed.

(* ================================================================== *)
(** ** Further properties of the label index *)

(** Closes a goal whose hypothesis equates a raised exception with a
    returned value. *)
Ltac no_result :=
  let H := fresh in intros H; unfold ok, raise in H; discriminate H.

Lemma read_csv_file_inv
    (w : World) (path : option string) (balance : bool) (g g' : rng)
    (out : list string) (t : tuple) :
  read_csv_file w path balance g = (out, ok t, g') ->
  (path_missing w path = true /\ out = [warn_missing] /\ t = empty_result
   /\ g' = g)
  \/ (exists p df,
        path = Some p /\ path_exists w p = true
        /\ Pandas.read_csv w p = ok df /\ columns df = []
        /\ out = [warn_no_columns] /\ t = empty_result /\ g' = g)
  \/ (exists p df tr te tr' c0 c1 xtr ytr xte yte g1,
        path = Some p /\ path_exists w p = true
        /\ Pandas.read_csv w p = ok df
        /\ train_test_split w g df = (ok (tr, te), g1)
        /\ (if balance then rebalance w g1 tr c1 = (ok tr', g')
            else tr' = tr /\ g' = g1)
        /\ nth_error (columns df) 0 = Some c0
        /\ nth_error (columns df) 1 = Some c1
        /\ Pandas.getitem tr' c0 = ok xtr /\ Pandas.getitem tr' c1 = ok ytr
        /\ Pandas.getitem te c0 = ok xte /\ Pandas.getitem te c1 = ok yte
        /\ out = []
        /\ t = [VSeries xtr; VSeries ytr; VSeries xte; VSeries yte]).
Proof.
  unfold read_csv_file.
  destruct path as [p|]; cbn -[nth_error].
  2:{ intros H; injection H as <- <- <-. left. auto. }
  destruct (path_exists w p) eqn:Hex; cbn -[nth_error].
  2:{ intros H; injection H as <- <- <-. left. auto. }
  unfold iobind, lift, draw, ret, print.
  destruct (Pandas.read_csv w p) as [e|df] eqn:Hdf; cbn -[nth_error];
    [no_result|].
  destruct (length (columns df) =? 0) eqn:Hcols; cbn -[nth_error].
  { intros H; injection H as <- <- <-. right; left.
    exists p, df. apply Nat.eqb_eq in Hcols.
    destruct (columns df); [auto 10|discriminate]. }
  destruct (train_test_split w g df) as [[e|[tr te]] g1] eqn:Hsplit;
    cbn -[nth_error]; [no_result|].
  unfold Pandas.columns_at.
  destruct balance.
  - destruct (nth_error (columns df) 1) as [c1|] eqn:Hc1; cbn -[nth_error];
      [|no_result].
    destruct (rebalance w g1 tr c1) as [[e|tr'] g2] eqn:Hreb;
      cbn -[nth_error]; [no_result|].
    destruct (nth_error (columns df) 0) as [c0|] eqn:Hc0; cbn -[nth_error];
      [|no_result].
    destruct (Pandas.getitem tr' c0) as [e|xtr] eqn:H1; cbn -[nth_error];
      [no_result|].
    destruct (Pandas.getitem tr' c1) as [e|ytr] eqn:H2; cbn -[nth_error];
      [no_result|].
    destruct (Pandas.getitem te c0) as [e|xte] eqn:H3; cbn -[nth_error];
      [no_result|].
    destruct (Pandas.getitem te c1) as [e|yte] eqn:H4; cbn -[nth_error];
      [no_result|].
    intros H; injection H as <- <- <-. right; right.
    exists p, df, tr, te, tr', c0, c1, xtr, ytr, xte, yte, g1. auto 20.
  - cbn -[nth_error].
    destruct (nth_error (columns df) 0) as [c0|] eqn:Hc0; cbn -[nth_error];
      [|no_result].
    destruct (Pandas.getitem tr c0) as [e|xtr] eqn:H1; cbn -[nth_error];
      [no_result|].
    destruct (nth_error (columns df) 1) as [c1|] eqn:Hc1; cbn -[nth_error];
      [|no_result].
    destruct (Pandas.getitem tr c1) as [e|ytr] eqn:H2; cbn -[nth_error];
      [no_result|].
    destruct (Pandas.getitem te c0) as [e|xte] eqn:H3; cbn -[nth_error];
      [no_result|].
    destruct (Pandas.getitem te c1) as [e|yte] eqn:H4; cbn -[nth_error];
      [no_result|].
    intros H; injection H as <- <- <-. right; right.
    exists p, df, tr, te, tr, c0, c1, xtr, ytr, xte, yte, g1. auto 20.
Qed.

Lemma sample2_split_partitions : split_partitions Sample2.world.
Proof. exact sample_split_partitions. Qed.

(** The second of the column names of a table is found at position 1. *)
Lemma index_of_second (c0 c1 : string) (cols : list string) :
  distinct (c0 :: c1 :: cols) = true ->
  Pandas.index_of c1 (c0 :: c1 :: cols) = Some 1.
Proof.
  cbn. rewrite String.eqb_refl.
  destruct (String.eqb_spec c0 c1) as [->|Hne]; cbn; [discriminate|].
  intros _. destruct (String.eqb_spec c1 c0) as [E|_]; [congruence|reflexivity].
Qed.

(** X1.  Whenever [read_csv_file] returns, it has either printed exactly
    one warning and returned the two-component tuple [([[]], [])], or
    printed nothing and returned four columns of which the file names and
    the labels of each partition have the same length. *)
Theorem read_csv_file_outcome
    (w : World) (path : option string) (balance : bool) (g g' : rng)
    (out : list string) (t : tuple) :
  read_csv_file w path balance g = (out, ok t, g') ->
  ((out = ["WARNING: Path does not exist, or is None."]
    \/ out = ["WARNING: File has no columns"])
   /\ t = [VList [VList []]; VList []])
  \/ (out = []
      /\ exists x_train y_train x_test y_test,
           t = [VSeries x_train; VSeries y_train; VSeries x_test; VSeries y_test]
           /\ length x_train = length y_train
           /\ length x_test = length y_test).
Proof.
  intros H. apply read_csv_file_inv in H.
  destruct H as [(_ & -> & -> & _) | [(p & df & _ & _ & _ & _ & -> & -> & _) | H]].
  - left. split; [left|]; reflexivity.
  - left. split; [right|]; reflexivity.
  - destruct H as (p & df & tr & te & tr' & c0 & c1 & xtr & ytr & xte & yte
                   & g1 & _ & _ & _ & _ & _ & _ & _ & H1 & H2 & H3 & H4 & -> & ->).
    right. split; [reflexivity|].
    exists xtr, ytr, xte, yte. split; [reflexivity|].
    apply getitem_length in H1, H2, H3, H4. split; congruence.
Qed.

Lemma read_csv_file_outcome_witness :
  ([] : list string) = []
  /\ exists x_train y_train x_test y_test,
       [VSeries [Str "b.png"; Str "b.png"]; VSeries [Str "dog"; Str "dog"];
        VSeries [Str "a.png"]; VSeries [Str "cat"]]
       = [VSeries x_train; VSeries y_train; VSeries x_test; VSeries y_test]
       /\ length x_train = length y_train
       /\ length x_test = length y_test.
Proof.
  destruct (read_csv_file_outcome Sample2.world (Some "pairs.csv") true 0 2 []
              [VSeries [Str "b.png"; Str "b.png"];
               VSeries [Str "dog"; Str "dog"];
               VSeries [Str "a.png"]; VSeries [Str "cat"]])
    as [[_ Habs] | H].
  - reflexivity.
  - discriminate Habs.
  - exact H.
Defined.

(** X3.  The columns are taken by position, from the table as pandas
    read it: with a splitter that keeps the columns, the file names
    returned are the first cell and the labels the second cell of the
    rows of each partition, whatever the columns are called and whatever
    other columns follow.  The test columns come from the split as it was
    drawn; with [balance] the training columns come from the rows the
    rebalancer returned for the second column name. *)
Theorem read_csv_file_columns_by_position
    (w : World) (p c0 c1 : string) (cols : list string)
    (df tr te tr' : DataFrame) (balance : bool) (g g1 g2 : rng) :
  path_exists w p = true ->
  Pandas.read_csv w p = ok df ->
  columns df = c0 :: c1 :: cols ->
  split_partitions w ->
  train_test_split w g df = (ok (tr, te), g1) ->
  (if balance
   then rebalance w g1 tr c1 = (ok tr', g2) /\ columns tr' = columns df
   else tr' = tr /\ g2 = g1) ->
  read_csv_file w (Some p) balance g
  = ([], ok [VSeries (map (fun r => nth 0 r Missing) (rows tr'));
             VSeries (map (fun r => nth 1 r Missing) (rows tr'));
             VSeries (map (fun r => nth 0 r Missing) (rows te));
             VSeries (map (fun r => nth 1 r Missing) (rows te))], g2).
Proof.
  intros Hex Hdf Hcols Hsplit Htt Hbal.
  destruct (Hsplit _ _ _ _ _ Htt) as (Hctr & Hcte & _).
  pose proof (columns_distinct df) as Hd. rewrite Hcols in Hd.
  pose proof (index_of_second c0 c1 cols Hd) as Hi1.
  rewrite Hcols in Hctr, Hcte.
  assert (Hctr' : columns tr' = c0 :: c1 :: cols).
  { destruct balance; [destruct Hbal as [_ ->]; exact Hcols|].
    destruct Hbal as [-> _]. exact Hctr. }
  unfold read_csv_file, iobind, lift, draw, ret, Pandas.columns_at,
    Pandas.getitem.
  rewrite Hex, Hdf; cbn -[Pandas.index_of nth].
  rewrite !Hcols; cbn -[Pandas.index_of nth].
  rewrite Htt; cbn -[Pandas.index_of nth].
  destruct balance.
  - destruct Hbal as [Hreb _]. rewrite Hreb; cbn -[Pandas.index_of nth].
    rewrite Hctr', Hcte, index_of_head, Hi1. reflexivity.
  - destruct Hbal as [-> ->]; cbn -[Pandas.index_of nth].
    rewrite Hctr, Hcte, index_of_head, Hi1. reflexivity.
Qed.

Lemma read_csv_file_columns_by_position_witness :
  read_csv_file Sample2.world (Some "wide.csv") true 0
  = ([], ok [VSeries [Str "b.png"; Str "b.png"];
             VSeries [Parsed "0"; Parsed "0"];
             VSeries [Str "a.png"]; VSeries [Parsed "1"]], 2).
Proof.
  apply (read_csv_file_columns_by_position Sample2.world "wide.csv"
           "File Name" "Label" []
           (mkDF ["File Name"; "Label"]
                 [[Str "a.png"; Parsed "1"]; [Str "b.png"; Parsed "0"]] eq_refl)
           (mkDF ["File Name"; "Label"] [[Str "b.png"; Parsed "0"]] eq_refl)
           (mkDF ["File Name"; "Label"] [[Str "a.png"; Parsed "1"]] eq_refl)
           (mkDF ["File Name"; "Label"]
                 [[Str "b.png"; Parsed "0"]; [Str "b.png"; Parsed "0"]] eq_refl)
           true 0 1 2).
  - reflexivity.
  - reflexivity.
  - reflexivity.
  - exact sample2_split_partitions.
  - reflexivity.
  - split; reflexivity.
Defined.

(** X4.  A label index with a single column is not a soft failure: once
    the split has returned, [read_csv_file] raises [IndexError] for the
    missing second column, with or without rebalancing, and prints
    nothing. *)
Theorem read_csv_file_single_column_raises
    (w : World) (p c0 : string) (df tr te : DataFrame) (balance : bool)
    (g g1 : rng) :
  path_exists w p = true ->
  Pandas.read_csv w p = ok df ->
  columns df = [c0] ->
  split_partitions w ->
  train_test_split w g df = (ok (tr, te), g1) ->
  read_csv_file w (Some p) balance g
  = ([], raise (IndexError "index 1 is out of bounds for axis 0 with size 1"),
     g1).
Proof.
  intros Hex Hdf Hcols Hsplit Htt.
  destruct (Hsplit _ _ _ _ _ Htt) as (Hctr & _ & _). rewrite Hcols in Hctr.
  unfold read_csv_file, iobind, lift, draw, ret, Pandas.columns_at,
    Pandas.getitem.
  rewrite Hex, Hdf; cbn -[Pandas.index_of nth].
  rewrite !Hcols; cbn -[Pandas.index_of nth].
  rewrite Htt; cbn -[Pandas.index_of nth].
  destruct balance; cbn -[Pandas.index_of nth]; [reflexivity|].
  rewrite Hctr, index_of_head. reflexivity.
Qed.

Lemma read_csv_file_single_column_raises_witness :
  read_csv_file Sample2.world (Some "names.csv") true 0
  = ([], raise (IndexError "index 1 is out of bounds for axis 0 with size 1"),
     1).
Proof.
  apply (read_csv_file_single_column_raises Sample2.world "names.csv"
           "File Name"
           (mkDF ["File Name"] [[Str "a.png"]; [Str "b.png"]] eq_refl)
           (mkDF ["File Name"] [[Str "b.png"]] eq_refl)
           (mkDF ["File Name"] [[Str "a.png"]] eq_refl) true 0 1).
  - reflexivity.
  - reflexivity.
  - reflexivity.
  - exact sample2_split_partitions.
  - reflexivity.
Defined.

(* ================================================================== *)
(** ** Further properties of image loading *)

Lemma read_images_ok_items (w : World) names dir parallel (b : batch) :
  read_images w names dir parallel = ok b ->
  path_isdir w dir = true
  /\ Forall2 (fun name img => _image_to_array w (OsPath.join dir name) = ok img)
             names (items b).
Proof.
  rewrite read_images_unfold.
  destruct (path_isdir w dir); [|no_result].
  destruct (decode_all w names dir parallel) as [e|imgs] eqn:Ed; cbn [bind];
    [no_result|].
  intros H. split; [reflexivity|].
  rewrite (items_np_array _ _ _ H). now apply decode_all_ok_iff in Ed.
Qed.

Lemma forallb_false_ex {T} (f : T -> bool) (l : list T) :
  forallb f l = false -> exists y, In y l /\ f y = false.
Proof.
  induction l as [|a l IH]; cbn; [discriminate|].
  destruct (f a) eqn:Ea; cbn.
  - intros H. destruct (IH H) as (y & Hy & Hf). exists y. auto.
  - intros _. exists a. auto.
Qed.

(** [np.asanyarray] raises on images of different shapes only. *)
Lemma np_array_raise (ro : bool) (xs : list tensor) (e : exn) :
  np_array ro xs = raise e ->
  exists x rest y,
    xs = x :: rest /\ In y rest /\ shape y <> shape x.
Proof.
  destruct xs as [|x rest]; [discriminate|].
  unfold np_array.
  destruct (forallb (fun y => shape_eqb (shape x) (shape y)) rest) eqn:Hall;
    [discriminate|].
  intros _. apply forallb_false_ex in Hall. destruct Hall as (y & Hy & Hf).
  exists x, rest, y. split; [reflexivity|]. split; [exact Hy|].
  unfold shape_eqb in Hf.
  destruct (list_eq_dec Nat.eq_dec (shape x) (shape y)); [discriminate|].
  congruence.
Qed.

Lemma file_names_ok (cells : list cell) (names : list string) :
  file_names (VSeries cells) = ok names ->
  Forall2 (fun c name => c = Str name) cells names.
Proof.
  unfold file_names. intros H. apply mapM_ok_Forall2 in H.
  induction H as [|c n l l' Hc _ IH]; constructor; auto.
  destruct c; try discriminate Hc. injection Hc as ->. reflexivity.
Qed.

Lemma file_names_total (cells : list cell) :
  Forall (fun c => exists name, c = Str name) cells ->
  exists names, file_names (VSeries cells) = ok names.
Proof.
  intros H. unfold file_names. apply mapM_total.
  eapply Forall_impl; [|exact H].
  intros c [name ->]. now exists name.
Qed.

(** A cell that is no string stops the collection of the file names. *)
Lemma file_names_not_str (pre post : list cell) (c : cell) :
  Forall (fun c => exists name, c = Str name) pre ->
  (forall name, c <> Str name) ->
  exists msg, file_names (VSeries (pre ++ c :: post)) = raise (TypeError msg).
Proof.
  intros Hpre Hc. unfold file_names.
  destruct c as [name| text |].
  - now destruct (Hc name).
  - eexists. apply mapM_raise_first. exists pre, (Parsed text), post.
    split; [reflexivity|]. split; [reflexivity|].
    eapply Forall_impl; [|exact Hpre]. intros c [name ->]. now exists name.
  - eexists. apply mapM_raise_first. exists pre, Missing, post.
    split; [reflexivity|]. split; [reflexivity|].
    eapply Forall_impl; [|exact Hpre]. intros c [name ->]. now exists name.
Qed.

Lemma Forall2_compose {T U V} (P : T -> U -> Prop) (Q : U -> V -> Prop)
    (l1 : list T) (l2 : list U) (l3 : list V) :
  Forall2 P l1 l2 -> Forall2 Q l2 l3 ->
  Forall2 (fun a c => exists b, P a b /\ Q b c) l1 l3.
Proof.
  intros H. revert l3. induction H as [|a b l1 l2 Hab _ IH]; intros l3 H';
    inversion H'; subst; constructor; eauto.
Qed.

(** X5.  Whenever [load_image_dataset] returns, nothing was printed, the
    label columns are those of [read_csv_file] with rebalancing on, image
    [i] of each returned batch is the decoded image of file name [i] of
    the partition, and each batch holds as many images as the partition
    has labels. *)
Theorem load_image_dataset_aligned
    (w : World) (csv_file_path : option string) (images_path : string)
    (parallel : bool) (g g' : rng) (out : list string)
    (x_train x_test : batch) (y_train y_test : pyval) :
  load_image_dataset w csv_file_path images_path parallel g
  = (out, ok (x_train, y_train, x_test, y_test), g') ->
  out = []
  /\ exists names_train labels_train names_test labels_test,
       read_csv_file w csv_file_path true g
       = ([], ok [VSeries names_train; VSeries labels_train;
                  VSeries names_test; VSeries labels_test], g')
       /\ y_train = VSeries labels_train /\ y_test = VSeries labels_test
       /\ Forall2 (fun c img => exists name, c = Str name
                     /\ _image_to_array w (OsPath.join images_path name) = ok img)
                  names_train (items x_train)
       /\ Forall2 (fun c img => exists name, c = Str name
                     /\ _image_to_array w (OsPath.join images_path name) = ok img)
                  names_test (items x_test)
       /\ length (items x_train) = length labels_train
       /\ length (items x_test) = length labels_test.
Proof.
  unfold load_image_dataset, iobind, lift.
  destruct (read_csv_file w csv_file_path true g) as [[o1 [e|t]] g1] eqn:Hcsv;
    [no_result|].
  destruct (unpack4 t) as [e|[[[a b] c] d]] eqn:Hun; cbn [bind]; [no_result|].
  destruct (file_names a) as [e|ntr] eqn:Hn1; cbn [bind]; [no_result|].
  destruct (read_images w ntr images_path parallel) as [e|xtr] eqn:Hr1;
    cbn [bind]; [no_result|].
  destruct (file_names c) as [e|nte] eqn:Hn2; cbn [bind]; [no_result|].
  destruct (read_images w nte images_path parallel) as [e|xte] eqn:Hr2;
    cbn [bind]; [no_result|].
  intros H. unfold ok in H. injection H as <- <- <- <- <- <-.
  assert (Ht : t = [a; b; c; d]).
  { unfold unpack4 in Hun.
    destruct t as [|a0 [|b0 [|c0 [|d0 [|? ?]]]]]; cbn in Hun;
      try (unfold raise, ok in Hun; discriminate Hun).
    unfold ok in Hun. injection Hun as <- <- <- <-. reflexivity. }
  subst t.
  pose proof (read_csv_file_inv _ _ _ _ _ _ _ Hcsv) as Hinv.
  destruct Hinv as [(_ & _ & Ht & _) | [(p & df & _ & _ & _ & _ & _ & Ht & _) | Hinv]];
    try discriminate Ht.
  destruct Hinv as (p & df & tr & te & tr' & c0 & c1 & xs & ys & xt & yt & g2
                    & _ & _ & _ & _ & _ & _ & _ & H1 & H2 & H3 & H4 & -> & Ht).
  injection Ht as -> -> -> ->.
  apply getitem_length in H1, H2, H3, H4.
  apply file_names_ok in Hn1, Hn2.
  apply read_images_ok_items in Hr1, Hr2.
  destruct Hr1 as [_ Hr1]. destruct Hr2 as [_ Hr2].
  pose proof (Forall2_compose _ _ _ _ _ Hn1 Hr1) as F1.
  pose proof (Forall2_compose _ _ _ _ _ Hn2 Hr2) as F2.
  split; [reflexivity|].
  exists xs, ys, xt, yt.
  split; [reflexivity|]. split; [reflexivity|]. split; [reflexivity|].
  split; [exact F1|]. split; [exact F2|].
  pose proof (Forall2_length F1) as L1.
  pose proof (Forall2_length F2) as L2.
  split.
  - etransitivity; [symmetry; exact L1|].
    etransitivity; [exact H1 | symmetry; exact H2].
  - etransitivity; [symmetry; exact L2|].
    etransitivity; [exact H3 | symmetry; exact H4].
Qed.

Lemma load_image_dataset_aligned_witness :
  length (items (BDense [1; 2; 3]
                   [[1; 2; 3; 4; 5; 6]; [1; 2; 3; 4; 5; 6]]%Z)) = 2
  /\ length (items (BDense [2; 2; 1] [[0; 64; 128; 255]%Z])) = 1.
Proof.
  destruct (load_image_dataset_aligned Sample2.world (Some "pairs.csv") "imgs"
              true 0 2 []
              (BDense [1; 2; 3] [[1; 2; 3; 4; 5; 6]; [1; 2; 3; 4; 5; 6]]%Z)
              (BDense [2; 2; 1] [[0; 64; 128; 255]%Z])
              (VSeries [Str "dog"; Str "dog"]) (VSeries [Str "cat"]))
    as (_ & ntr & ltr & nte & lte & _ & Hy1 & Hy2 & _ & _ & L1 & L2).
  - reflexivity.
  - injection Hy1 as <-. injection Hy2 as <-. split; [exact L1 | exact L2].
Defined.

(** X6.  Over an existing directory, an error raised by [read_images] has
    one of two origins.  Either it is the error the decoder raised for
    one of the listed files, which in sequential mode is the first file
    that fails, all files before it having decoded.  Or every file
    decoded and the error is the one [np.asanyarray] raises on the decoded
    images, two of which then differ in shape. *)
Theorem read_images_error_origin
    (w : World) (names : list string) (dir : string) (parallel : bool)
    (e : exn) :
  path_isdir w dir = true ->
  read_images w names dir parallel = raise e ->
  ((exists name, In name names
      /\ _image_to_array w (OsPath.join dir name) = raise e)
   /\ (parallel = false ->
       exists pre name post,
         names = (pre ++ name :: post)%list
         /\ _image_to_array w (OsPath.join dir name) = raise e
         /\ Forall (fun n => exists img,
                      _image_to_array w (OsPath.join dir n) = ok img) pre))
  \/ (exists imgs,
        Forall2 (fun name img =>
                   _image_to_array w (OsPath.join dir name) = ok img)
                names imgs
        /\ np_array (ragged_objects w) imgs = raise e
        /\ exists x y, In x imgs /\ In y imgs /\ shape y <> shape x).
Proof.
  intros Hdir. rewrite read_images_unfold, Hdir.
  destruct (decode_all w names dir parallel) as [e'|imgs] eqn:Ed; cbn [bind].
  2:{ intros H. right. exists imgs.
      split; [now apply decode_all_ok_iff in Ed|]. split; [exact H|].
      destruct (np_array_raise _ _ _ H) as (x & rest & y & -> & Hy & Hne).
      exists x, y. cbn. auto. }
  intros H. unfold raise in H. injection H as ->. left.
  split; [now apply decode_all_raise with (parallel := parallel)|].
  intros ->. unfold decode_all in Ed.
  apply mapM_raise_first in Ed.
  destruct Ed as (pre & p & post & Hxs & Hp & Hpre).
  clear Hdir. revert names Hxs.
  induction pre as [|q pre IH]; intros [|n names] Hxs; cbn in Hxs;
    try discriminate Hxs.
  - injection Hxs as <- <-. exists [], n, names. repeat split; auto.
  - injection Hxs as Hhead Hrest. subst q.
    inversion Hpre as [|? ? Hq Hpre']; subst.
    destruct (IH Hpre' names Hrest) as (pre' & name & post' & -> & Hn & Hf).
    exists (n :: pre'), name, post'. repeat split; auto.
Qed.

Lemma read_images_error_origin_witness :
  ((exists name, In name ["a.png"; "b.png"]
      /\ _image_to_array Sample2.world (OsPath.join "imgs" name)
         = raise (ValueError "setting an array element with a sequence. The requested array has an inhomogeneous shape"))
   /\ (true = false ->
       exists pre name post,
         ["a.png"; "b.png"] = (pre ++ name :: post)%list
         /\ _image_to_array Sample2.world (OsPath.join "imgs" name)
            = raise (ValueError "setting an array element with a sequence. The requested array has an inhomogeneous shape")
         /\ Forall (fun n => exists img,
                      _image_to_array Sample2.world (OsPath.join "imgs" n)
                      = ok img) pre))
  \/ (exists imgs,
        Forall2 (fun name img =>
                   _image_to_array Sample2.world (OsPath.join "imgs" name)
                   = ok img)
                ["a.png"; "b.png"] imgs
        /\ np_array (ragged_objects Sample2.world) imgs
           = raise (ValueError "setting an array element with a sequence. The requested array has an inhomogeneous shape")
        /\ exists x y, In x imgs /\ In y imgs /\ shape y <> shape x).
Proof.
  apply (read_images_error_origin Sample2.world ["a.png"; "b.png"] "imgs" true
           (ValueError "setting an array element with a sequence. The requested array has an inhomogeneous shape")).
  - reflexivity.
  - reflexivity.
Defined.

(** X7.  With a label index that reads well, what [load_image_dataset]
    raises depends on the file names first and on the directory after:
    a file name that is no string (a missing or a numeric field) makes it
    raise [TypeError], whether the images directory exists or not; with
    strings only and an images directory that does not exist, it raises
    the directory error of [read_images]. *)
Theorem load_image_dataset_missing_directory
    (w : World) (csv_file_path : option string) (images_path : string)
    (parallel : bool) (g g' : rng) (out : list string) (names : list cell)
    (b c d : pyval) :
  read_csv_file w csv_file_path true g
  = (out, ok [VSeries names; b; c; d], g') ->
  (Forall (fun cell => exists name, cell = Str name) names ->
   path_isdir w images_path = false ->
   load_image_dataset w csv_file_path images_path parallel g
   = (out, raise (ValueError "Directory containing images does not exist"),
      g'))
  /\ (forall pre cell post,
        names = (pre ++ cell :: post)%list ->
        Forall (fun cell => exists name, cell = Str name) pre ->
        (forall name, cell <> Str name) ->
        exists msg,
          load_image_dataset w csv_file_path images_path parallel g
          = (out, raise (TypeError msg), g')).
Proof.
  intros Hcsv. split.
  - intros Hnames Hdir.
    destruct (file_names_total names Hnames) as [ns Hns].
    unfold load_image_dataset, iobind, lift. rewrite Hcsv.
    cbn [unpack4 bind ok].
    rewrite Hns. cbn [bind ok].
    rewrite read_images_unfold, Hdir. cbn [bind raise].
    now rewrite app_nil_r.
  - intros pre cell post -> Hpre Hcell.
    destruct (file_names_not_str pre post cell Hpre Hcell) as [msg Hmsg].
    exists msg.
    unfold load_image_dataset, iobind, lift. rewrite Hcsv.
    cbn [unpack4 bind ok].
    rewrite Hmsg. cbn [bind raise].
    now rewrite app_nil_r.
Qed.

Lemma load_image_dataset_missing_directory_witness :
  load_image_dataset Sample2.world (Some "pairs.csv") "pictures" true 0
  = ([], raise (ValueError "Directory containing images does not exist"), 2).
Proof.
  apply (proj1 (load_image_dataset_missing_directory Sample2.world
                  (Some "pairs.csv") "pictures" true 0 2 []
                  [Str "b.png"; Str "b.png"]
                  (VSeries [Str "dog"; Str "dog"]) (VSeries [Str "a.png"])
                  (VSeries [Str "cat"]) eq_refl)).
  - repeat constructor; eexists; reflexivity.
  - reflexivity.
Defined.

Lemma join_absolute (dir name : string) :
  String.prefix "/" name = true -> OsPath.join dir name = name.
Proof. intros H. unfold OsPath.join, OsPath.sep. now rewrite H. Qed.

(** X8.  A file name that starts with [/] is not looked up in the images
    directory: [read_images] decodes the path the name itself gives.  So
    for a list of such names it returns exactly the images decoded from
    the names as they are, and whenever these decode it ends, with a
    batch or with an error, as [np.asanyarray] of them does. *)
Theorem read_images_absolute_names
    (w : World) (names : list string) (dir : string) (parallel : bool) :
  Forall (fun name => String.prefix "/" name = true) names ->
  path_isdir w dir = true ->
  (forall b, read_images w names dir parallel = ok b ->
             Forall2 (fun name img => _image_to_array w name = ok img)
                     names (items b))
  /\ (forall imgs,
        Forall2 (fun name img => _image_to_array w name = ok img) names imgs ->
        read_images w names dir parallel = np_array (ragged_objects w) imgs).
Proof.
  intros Habs Hdir.
  assert (Hpaths : map (OsPath.join dir) names = names).
  { rewrite <- (map_id names) at 2. apply map_ext_in.
    intros n Hn. rewrite Forall_forall in Habs. now apply join_absolute, Habs. }
  split.
  - intros b Hb. apply read_images_ok_items in Hb. destruct Hb as [_ Hb].
    clear Hpaths. induction Hb as [|n img l l' Hn _ IH]; constructor.
    + inversion Habs; subst. now rewrite join_absolute in Hn.
    + inversion Habs; subst. auto.
  - intros imgs Hall.
    rewrite read_images_unfold, Hdir.
    assert (Hd : decode_all w names dir parallel = ok imgs).
    { unfold decode_all. rewrite Hpaths.
      destruct parallel; [apply pool_map_ok_iff|]; now apply mapM_ok_Forall2. }
    now rewrite Hd.
Qed.

Lemma read_images_absolute_names_witness :
  read_images Sample2.world ["/data/a.png"] "imgs" true
  = ok (BDense [2; 2; 1] [[0; 64; 128; 255]%Z]).
Proof.
  apply (proj2 (read_images_absolute_names Sample2.world ["/data/a.png"]
                  "imgs" true
                  (Forall_cons "/data/a.png" eq_refl (Forall_nil _)) eq_refl)
           [mkTensor [2; 2; 1] [0; 64; 128; 255]%Z]).
  repeat constructor.
Defined.

(** X9.  An empty list of file names over an existing directory loads, in
    either mode, to the empty array of shape (0,), and [resize_images]
    returns that array as an equal empty array. *)
Theorem read_images_empty_list
    (w : World) (dir : string) (parallel : bool) :
  path_isdir w dir = true ->
  exists b,
    read_images w [] dir parallel = ok b
    /\ batch_shape b = [0]
    /\ items b = []
    /\ resize_images w b None = ok b.
Proof.
  intros Hdir. exists (BDense [] []).
  rewrite read_images_unfold, Hdir.
  assert (Hd : decode_all w [] dir parallel = ok []).
  { unfold decode_all. destruct parallel; [apply pool_map_ok_iff|]; reflexivity. }
  rewrite Hd. repeat split.
Qed.

Lemma read_images_empty_list_witness :
  exists b,
    read_images Sample.world [] "imgs" true = ok b
    /\ batch_shape b = [0]
    /\ items b = []
    /\ resize_images Sample.world b None = ok b.
Proof.
  apply (read_images_empty_list Sample.world "imgs" true). reflexivity.
Defined.

(* ================================================================== *)
(** ** Further properties of the median shape and of resizing *)

Lemma sorted_perm_eq (l l' : list Z) :
  StronglySorted Z.le l -> StronglySorted Z.le l' -> Permutation l l' -> l = l'.
Proof.
  intros Hl. revert l'.
  induction Hl as [|a l Hl IH Ha]; intros l' Hl' Hp.
  - apply Permutation_nil in Hp. now subst.
  - destruct l' as [|b l'].
    { apply Permutation_sym, Permutation_nil in Hp. discriminate. }
    inversion Hl' as [|? ? Hl'' Hb]; subst.
    assert (Hab : a = b).
    { rewrite Forall_forall in Ha, Hb.
      assert (Hin_b : In b (a :: l))
        by (eapply Permutation_in; [symmetry; exact Hp | now left]).
      assert (Hin_a : In a (b :: l'))
        by (eapply Permutation_in; [exact Hp | now left]).
      destruct Hin_b as [E|Hin_b]; [auto|].
      destruct Hin_a as [E|Hin_a]; [auto|].
      specialize (Ha b Hin_b). specialize (Hb a Hin_a). lia. }
    subst b. f_equal. apply IH; auto.
    eapply Permutation_cons_inv; eauto.
Qed.

Lemma np_median_perm (xs xs' : list Z) :
  Permutation xs xs' -> np_median xs = np_median xs'.
Proof.
  intros Hp. unfold np_median.
  assert (E : ZSort.sort xs = ZSort.sort xs').
  { apply sorted_perm_eq; try apply sorted_Zle.
    rewrite <- (ZSort.Permuted_sort xs), <- (ZSort.Permuted_sort xs').
    exact Hp. }
  now rewrite E.
Qed.

Lemma same_length_check (r : list Z) (rest : list (list Z)) :
  forallb (fun r' => length r' =? length r) rest = true
  <-> Forall (fun r' => length r' = length r) (r :: rest).
Proof.
  rewrite forallb_forall, Forall_forall. split.
  - intros H x [<- | Hx]; [reflexivity|]. now apply Nat.eqb_eq, H.
  - intros H x Hx. apply Nat.eqb_eq, H. now right.
Qed.

Lemma np_median_axis0_perm (rows rows' : list (list Z)) :
  Permutation rows rows' -> np_median_axis0 rows = np_median_axis0 rows'.
Proof.
  intros Hp.
  destruct rows as [|r rest].
  { apply Permutation_nil in Hp. now subst. }
  destruct rows' as [|r' rest'].
  { apply Permutation_sym, Permutation_nil in Hp. discriminate. }
  unfold np_median_axis0.
  destruct (forallb (fun x => length x =? length r) rest) eqn:E.
  - apply same_length_check in E.
    assert (E' : Forall (fun x => length x = length r) (r' :: rest'))
      by (eapply Permutation_Forall; eauto).
    assert (Hr : length r' = length r) by (inversion E'; auto).
    assert (E2 : forallb (fun x => length x =? length r') rest' = true).
    { apply same_length_check. rewrite Hr. exact E'. }
    rewrite E2, Hr. do 2 f_equal.
    apply map_ext. intros j. apply np_median_perm.
    now apply Permutation_map.
  - destruct (forallb (fun x => length x =? length r') rest') eqn:E2;
      [|reflexivity].
    exfalso. apply same_length_check in E2.
    assert (E' : Forall (fun x => length x = length r') (r :: rest))
      by (eapply Permutation_Forall; [symmetry|]; eauto).
    assert (Hr : length r = length r') by (inversion E'; auto).
    apply Bool.not_true_iff_false in E. apply E.
    apply same_length_check. rewrite Hr. exact E'.
Qed.

(** X10.  The median shape does not depend on the order of the images:
    two batches holding the same images in a different order get the same
    result from [compute_median_dimensions], error included. *)
Theorem compute_median_dimensions_order
    (ts ts' : list tensor) (s : list nat) (ds ds' : list (list pixel)) :
  (Permutation ts ts' ->
   compute_median_dimensions (BObject ts) = compute_median_dimensions (BObject ts'))
  /\ (Permutation ds ds' ->
      compute_median_dimensions (BDense s ds)
      = compute_median_dimensions (BDense s ds')).
Proof.
  split; intros Hp; unfold compute_median_dimensions; cbn [is_none batch_shape
    length Nat.eqb orb items].
  - rewrite (np_median_axis0_perm _ (map (fun x => map Z.of_nat (shape x)) ts'));
      [reflexivity | now apply Permutation_map].
  - rewrite (np_median_axis0_perm _
               (map (fun x => map Z.of_nat (shape x)) (map (mkTensor s) ds')));
      [reflexivity | now apply Permutation_map, Permutation_map].
Qed.

Lemma compute_median_dimensions_order_witness :
  compute_median_dimensions
    (BObject [mkTensor [8; 9; 3] []; mkTensor [12; 10; 3] [];
              mkTensor [10; 14; 3] []])
  = compute_median_dimensions
      (BObject [mkTensor [12; 10; 3] []; mkTensor [10; 14; 3] [];
                mkTensor [8; 9; 3] []]).
Proof.
  apply (proj1 (compute_median_dimensions_order
                  [mkTensor [8; 9; 3] []; mkTensor [12; 10; 3] [];
                   mkTensor [10; 14; 3] []]
                  [mkTensor [12; 10; 3] []; mkTensor [10; 14; 3] [];
                   mkTensor [8; 9; 3] []] [] [] [])).
  apply (Permutation_cons_append
           [mkTensor [12; 10; 3] []; mkTensor [10; 14; 3] []]
           (mkTensor [8; 9; 3] [])).
Defined.

(** X11.  Along every axis the median dimension lies between the sizes of
    two images of the batch: it is never below the smallest nor above the
    largest image size along that axis. *)
Theorem compute_median_dimensions_bounds (images : batch) (r : nat) :
  items images <> [] ->
  Forall (fun x => ndim x = r) (items images) ->
  exists dims,
    compute_median_dimensions images = ok (V1 dims)
    /\ forall j, j < r ->
         exists x_lo x_hi,
           In x_lo (items images) /\ In x_hi (items images)
           /\ (Z.of_nat (nth j (shape x_lo) 0%nat) <= nth j dims 0
               <= Z.of_nat (nth j (shape x_hi) 0%nat))%Z.
Proof.
  intros Hne Hrank.
  eexists. split; [apply compute_median_dimensions_columns; eauto|].
  intros j Hj. rewrite (nth_map_seq _ r j 0%Z Hj).
  destruct (np_median_middle (axis_sizes j images)
              (axis_sizes_nonempty j images Hne))
    as (lo & hi & Hlo & Hhi & Hle & Hm & _).
  unfold axis_sizes in Hlo, Hhi.
  apply in_map_iff in Hlo, Hhi.
  destruct Hlo as (x_lo & <- & Hlo). destruct Hhi as (x_hi & <- & Hhi).
  exists x_lo, x_hi. split; [exact Hlo|]. split; [exact Hhi|].
  set (a := Z.of_nat (nth j (shape x_lo) 0)) in *.
  set (b := Z.of_nat (nth j (shape x_hi) 0)) in *.
  assert (Ha : (0 <= a)%Z) by (unfold a; lia).
  destruct Hm as [[-> Hab] | ->]; cbn [astype_int Qnum Qden inject_Z].
  - rewrite Z.quot_1_r. lia.
  - rewrite Z.quot_div_nonneg by lia.
    split.
    + apply Z.div_le_lower_bound; lia.
    + apply Z.div_le_upper_bound; lia.
Qed.

Lemma compute_median_dimensions_bounds_witness :
  exists dims,
    compute_median_dimensions
      (BObject [mkTensor [8; 9; 3] []; mkTensor [12; 10; 3] []])
    = ok (V1 dims).
Proof.
  destruct (compute_median_dimensions_bounds
              (BObject [mkTensor [8; 9; 3] []; mkTensor [12; 10; 3] []]) 3)
    as (dims & H & _).
  - discriminate.
  - repeat constructor.
  - exists dims. exact H.
Defined.

(** X12.  For a non-empty batch whose images all have one shape,
    [compute_median_dimensions] returns that shape. *)
Theorem compute_median_dimensions_uniform (images : batch) (s : list nat) :
  items images <> [] ->
  Forall (fun x => shape x = s) (items images) ->
  compute_median_dimensions images = ok (V1 (map Z.of_nat s)).
Proof.
  intros Hne Hall.
  rewrite (compute_median_dimensions_columns images (length s) Hne).
  2:{ eapply Forall_impl; [|exact Hall]. intros x Hx. unfold ndim. now rewrite Hx. }
  unfold ok. do 2 f_equal.
  rewrite <- (map_nth_seq (map Z.of_nat s) 0%Z) at 1.
  rewrite length_map. apply map_ext. intros j.
  apply median_of_constant; [now apply axis_sizes_nonempty|].
  unfold axis_sizes. apply Forall_map.
  eapply Forall_impl; [|exact Hall].
  intros x Hx. rewrite Hx.
  change 0%Z with (Z.of_nat 0). symmetry. apply map_nth.
Qed.

Lemma compute_median_dimensions_uniform_witness :
  compute_median_dimensions (BDense [4; 5; 3] [[]; []; []])
  = ok (V1 [4; 5; 3]%Z).
Proof.
  apply (compute_median_dimensions_uniform (BDense [4; 5; 3] [[]; []; []])
           [4; 5; 3]).
  - discriminate.
  - repeat constructor.
Defined.

(** X13.  A target size passed to [resize_images] is honoured: for a
    non-empty batch of images with [r >= 1] axes and no empty axis, and a
    size of [r] positive integers, every image of the result has exactly
    that shape and the result has as many images as the batch. *)
Theorem resize_images_explicit_size
    (w : World) (images : batch) (size : list nat) (r : nat) :
  1 <= r ->
  items images <> [] ->
  Forall (fun x => ndim x = r) (items images) ->
  Forall (fun x => Forall (fun d => 1 <= d) (shape x)) (items images) ->
  length size = r ->
  Forall (fun d => 1 <= d) size ->
  exists resized,
    resize_images w images (Some (V1 (map Z.of_nat size))) = ok resized
    /\ length (items resized) = length (items images)
    /\ Forall (fun x => shape x = size) (items resized).
Proof.
  intros Hr Hne Hrank Hpos Hlen _.
  exists (BDense size (map (fun x => spline w x size) (items images))).
  split.
  - unfold resize_images.
    assert (Hguard : is_none images || (length (batch_shape images) =? 0) = false).
    { destruct images; cbn in *; congruence. }
    rewrite Hguard. cbn [bind ok].
    rewrite (zoom_all_to_size w (items images) size);
      [|lia|now rewrite Hlen|exact Hpos].
    cbn [bind ok]. f_equal.
    rewrite (np_array_uniform _ _ size).
    + now rewrite map_map.
    + destruct (items images); cbn; congruence.
    + apply Forall_map, Forall_forall. reflexivity.
  - cbn. rewrite !length_map. split; [reflexivity|].
    apply Forall_map, Forall_map, Forall_forall. reflexivity.
Qed.

Lemma resize_images_explicit_size_witness :
  exists resized,
    resize_images Sample.world
      (BObject [mkTensor [2; 2; 1] [0; 64; 128; 255]%Z; Sample.rgb])
      (Some (V1 (map Z.of_nat [4; 4; 3])))
    = ok resized
    /\ length (items resized) = 2
    /\ Forall (fun x => shape x = [4; 4; 3]) (items resized).
Proof.
  apply (resize_images_explicit_size Sample.world
           (BObject [mkTensor [2; 2; 1] [0; 64; 128; 255]%Z; Sample.rgb])
           [4; 4; 3] 3).
  - lia.
  - discriminate.
  - repeat constructor.
  - repeat constructor.
  - reflexivity.
  - repeat constructor.
Defined.

Lemma int_round_empty_axis (s : Z) :
  int_round (mul_size 0 (true_divide s 0))
  = raise (ValueError "cannot convert float NaN to integer").
Proof.
  unfold true_divide; cbn [Nat.eqb].
  destruct (0 <? s)%Z; [reflexivity|]. destruct (s <? 0)%Z; reflexivity.
Qed.

Lemma combine_divide_empty_axis (sh : list nat) (dims : list Z) :
  length dims = length sh -> In 0 sh ->
  exists s, In (0, true_divide s 0) (combine sh (map2 true_divide dims sh)).
Proof.
  revert dims; induction sh as [|d sh IH]; intros [|s dims] Hlen Hin;
    cbn in Hlen, Hin; try discriminate; try contradiction.
  destruct Hin as [-> | Hin].
  - exists s. cbn. now left.
  - destruct (IH dims) as [s' Hs']; [lia|exact Hin|].
    exists s'. cbn. now right.
Qed.

Lemma map2_length {T U V} (f : T -> U -> V) (xs : list T) (ys : list U) :
  length xs = length ys -> length (map2 f xs ys) = length ys.
Proof.
  revert ys; induction xs as [|x xs IH]; intros [|y ys] H; cbn in *;
    try discriminate; auto.
Qed.

(** X14.  An image with an empty axis (a size of 0) cannot be resized:
    the quotient of the target size and 0 is not a number the output size
    can be rounded from, so for a non-empty batch (of images with the same
    number [r >= 1] of axes) that holds such an image, [resize_images]
    raises and returns no batch. *)
Theorem resize_images_empty_axis_raises
    (w : World) (images : batch) (r : nat) (x : tensor) :
  1 <= r ->
  Forall (fun y => ndim y = r) (items images) ->
  In x (items images) ->
  In 0 (shape x) ->
  exists e, resize_images w images None = raise e.
Proof.
  intros Hr Hrank Hx H0.
  assert (Hne : items images <> []) by (destruct (items images); [easy|congruence]).
  unfold resize_images.
  assert (Hguard : is_none images || (length (batch_shape images) =? 0) = false).
  { destruct images; cbn in *; congruence. }
  rewrite Hguard, (compute_median_dimensions_columns images r Hne Hrank).
  cbn [bind ok].
  set (dims := map (fun j => astype_int (np_median (axis_sizes j images))) (seq 0 r)).
  assert (Hlen : length dims = length (shape x)).
  { unfold dims. rewrite length_map, length_seq.
    rewrite Forall_forall in Hrank. symmetry. apply (Hrank x Hx). }
  assert (Hfail : exists e,
            bind (np_divide (V1 dims) (shape x)) (fun factors => zoom w x factors)
            = raise e).
  { unfold np_divide. rewrite Hlen, Nat.eqb_refl. cbn [bind ok].
    unfold zoom, ndim.
    assert (Hnd : length (shape x) = r)
      by (rewrite Forall_forall in Hrank; apply (Hrank x Hx)).
    destruct (Nat.ltb_spec (length (shape x)) 1) as [|_]; [lia|].
    rewrite (map2_length _ _ _ Hlen), Nat.eqb_refl. cbn [negb].
    destruct (combine_divide_empty_axis (shape x) dims Hlen H0) as [s Hs].
    destruct (mapM_In_raise (fun '(ii, jj) => int_round (mul_size ii jj))
                _ _ _ Hs (int_round_empty_axis s)) as [e He].
    rewrite He. now exists e. }
  destruct Hfail as [e He].
  destruct (mapM_In_raise
              (fun y => bind (np_divide (V1 dims) (shape y))
                             (fun factors => zoom w y factors))
              (items images) x e Hx He) as [e' He'].
  rewrite He'. now exists e'.
Qed.

Lemma resize_images_empty_axis_raises_witness :
  exists e,
    resize_images Sample.world
      (BObject [Sample.rgb; mkTensor [3; 0; 3] []]) None = raise e.
Proof.
  apply (resize_images_empty_axis_raises Sample.world
           (BObject [Sample.rgb; mkTensor [3; 0; 3] []]) 3
           (mkTensor [3; 0; 3] [])).
  - lia.
  - repeat constructor.
  - right; left; reflexivity.
  - right; left; reflexivity.
Defined.
